(** * The entity REST client of the worker (src/api/worker/rest/EntityRestClient.js)

    A shallow embedding of [EntityRestClient]: request preparation, the
    load / loadRange / loadMultiple / setup / setupMultiple / update / erase
    operations, and the failure policy of bulk creation.

    Promises are modelled by a state-and-exception monad: a rejected promise
    is an exception, [await] is bind.  Every call to a collaborator (type
    model registry, authentication provider, transport, crypto facade,
    instance mapper, console) acts on an abstract world [W] and leaves an
    event in a trace, so that statements such as "no request is issued" are
    statements about the trace. *)

From Stdlib Require Import ZArith Ascii String List DecimalString Lia.
From stdpp Require Import base strings gmap list.

Set Implicit Arguments.
Set Warnings "-register-all".

(** ** Strings *)

(** [String.prototype.toLowerCase], on the ASCII range. *)
Definition lower_ascii (c : ascii) : ascii :=
  let n := nat_of_ascii c in
  if Nat.leb 65 n && Nat.leb n 90 then ascii_of_nat (n + 32) else c.

Fixpoint toLowerCase (s : string) : string :=
  match s with
  | EmptyString => EmptyString
  | String c rest => String (lower_ascii c) (toLowerCase rest)
  end.

(** [Array.prototype.join] on an array of strings. *)
Definition join (sep : string) (l : list string) : string := String.concat sep l.

(** [String(n)] for an integral number. *)
Definition String_of_number (z : Z) : string := NilZero.string_of_int (Z.to_int z).

Definition String_of_boolean (b : bool) : string := if b then "true" else "false".

(** ** Data model *)

Definition Id := string.

Abbreviation Params := (gmap string string).

Record TypeRef := mkTypeRef { app : string; type : string }.

(** Modelled from the spec: the [Type] enumeration of EntityConstants is not
    part of the sources at hand.  The shape kind of a type model is [Element],
    [ListElement], or some other (unverified or legacy) shape. *)
Inductive TypeKind :=
| Element
| ListElement
| OtherKind (name : string).

Definition TypeKind_eqb (a b : TypeKind) : bool :=
  match a, b with
  | Element, Element => true
  | ListElement, ListElement => true
  | OtherKind x, OtherKind y => String.eqb x y
  | _, _ => false
  end.

(** Modelled from the spec: the part of [TypeModel] (EntityTypes) the client
    reads, its shape kind and its version. *)
Record TypeModel := mkTypeModel { typeModel_type : TypeKind; version : string }.

(** JavaScript values as they come out of [JSON.parse], with [undefined]. *)
Inductive Value :=
| VUndefined
| VNull
| VBool (b : bool)
| VNumber (z : Z)
| VString (s : string)
| VArray (items : list Value)
| VObject (fields : list (string * Value)).

(** The [Boolean] conversion, as used by [filter(Boolean)]. *)
Definition Boolean (v : Value) : bool :=
  match v with
  | VUndefined | VNull => false
  | VBool b => b
  | VNumber z => negb (Z.eqb z 0)
  | VString s => negb (String.eqb s "")
  | VArray _ | VObject _ => true
  end.

(** An entity id: an element id, or a [listId, elementId] pair. *)
Inductive IdValue :=
| ElementId (id : Id)
| IdTuple (listId elementId : Id).

(** Modelled from the spec: a decrypted entity instance is tagged with its
    TypeRef, carries an identity and plain fields, and possibly an [_errors]
    marker. *)
Record Entity := mkEntity {
  _type : TypeRef;
  _id : option IdValue;
  _errors : option Value;
  content : Value
}.

(** What [resolveSessionKey] is handed: a wire literal or an entity. *)
Inductive AnyInstance :=
| Literal (v : Value)
| Instance (e : Entity).

(** Modelled from the spec: a session key is a symmetric key; its bits are
    irrelevant here. *)
Definition Aes128Key := list Z.

Inductive HttpMethod := GET | POST | PUT | DELETE.
Inductive MediaType := Json | Binary | Text.

(** The arguments of one [RestClient.request] call. *)
Record Request := mkRequest {
  path : string;
  method : HttpMethod;
  queryParams : Params;
  headers : Params;
  body : option string;
  responseType : option MediaType
}.

(** Exceptions (rejections).  [Error] is the plain JavaScript error used for
    usage errors. *)
Inductive Exn :=
| Error (msg : string)
| TypeError (msg : string)
| SyntaxError (msg : string)
| NotAuthenticatedError (msg : string)
| PayloadTooLargeError (msg : string)
| SessionKeyNotFoundError (msg : string)
| RestError (status : Z) (msg : string)
| SetupMultipleError (msg : string) (errors : list Exn) (failedInstances : list Entity).

(** [e instanceof PayloadTooLargeError] *)
Definition instanceof_PayloadTooLargeError (e : Exn) : bool :=
  match e with PayloadTooLargeError _ => true | _ => false end.

(** [e instanceof SessionKeyNotFoundError] *)
Definition instanceof_SessionKeyNotFoundError (e : Exn) : bool :=
  match e with SessionKeyNotFoundError _ => true | _ => false end.

(** Calls to the collaborators, in the order they happen. *)
Inductive Event :=
| EvResolveTypeReference (t : TypeRef)
| EvAuthHeaders
| EvRequest (r : Request)
| EvApplyMigrations (t : TypeRef) (raw : Value)
| EvResolveSessionKey (tm : TypeModel) (i : AnyInstance)
| EvDecryptAndMapToInstance (tm : TypeModel) (raw : Value) (sk : option Aes128Key)
| EvApplyMigrationsForInstance (e : Entity)
| EvSetNewOwnerEncSessionKey (tm : TypeModel) (e : Entity)
| EvEncryptAndMapToLiteral (tm : TypeModel) (e : Entity) (sk : option Aes128Key)
| EvConsoleLog (msg : string) (e : Exn).

Definition is_request (ev : Event) : bool :=
  match ev with EvRequest _ => true | _ => false end.

Definition is_encryption (ev : Event) : bool :=
  match ev with
  | EvSetNewOwnerEncSessionKey _ _ | EvEncryptAndMapToLiteral _ _ _ => true
  | _ => false
  end.

(** The requests of a trace, in order. *)
Definition requests (tr : list Event) : list Request :=
  omap (fun ev => match ev with EvRequest r => Some r | _ => None end) tr.

(** ** Property access and array helpers of the language *)

(** [v.k]: reading a property of [undefined] or [null] throws. *)
Fixpoint assoc (k : string) (fields : list (string * Value)) : Value :=
  match fields with
  | [] => VUndefined
  | (k', v) :: rest => if String.eqb k k' then v else assoc k rest
  end.

Definition getProp (k : string) (v : Value) : Exn + Value :=
  match v with
  | VUndefined | VNull => inl (TypeError ("Cannot read properties of null or undefined: " +:+ k))
  | VObject fields => inr (assoc k fields)
  | _ => inr VUndefined
  end.

(** [flat] of tutanota-utils: one level of concatenation. *)
Definition flat {A} (ll : list (list A)) : list A := concat ll.

(** Modelled from the spec: [splitInChunks] of tutanota-utils is not part of
    the sources at hand.  It splits a sequence into consecutive chunks of the
    given size, in input order; the last chunk may be shorter. *)
Fixpoint splitInChunks_from {A} (fuel chunkSize : nat) (array : list A) : list (list A) :=
  match fuel, array with
  | O, _ | _, [] => []
  | S fuel', _ => take chunkSize array :: splitInChunks_from fuel' chunkSize (drop chunkSize array)
  end.

Definition splitInChunks {A} (chunkSize : nat) (array : list A) : list (list A) :=
  if Nat.ltb chunkSize 1 then [] else splitInChunks_from (length array) chunkSize array.

(** [ceil(n / k)] on natural numbers. *)
Definition ceil_div (n k : nat) : nat := (n + (k - 1)) / k.

(** ** Promises: state and exceptions *)

(** A computation over a state [S]: it ends with a value (the promise is
    fulfilled) or an exception (it is rejected), and a new state. *)
Definition Prog (S A : Type) : Type := S -> (Exn + A) * S.

Definition ret {S A} (a : A) : Prog S A := fun s => (inr a, s).

Definition throw {S A} (e : Exn) : Prog S A := fun s => (inl e, s).

Definition bind {S A B} (p : Prog S A) (k : A -> Prog S B) : Prog S B :=
  fun s =>
    match p s with
    | (inr a, s') => k a s'
    | (inl e, s') => (inl e, s')
    end.

(** [try { p } catch (e) { h e }], also [p.catch(h)]. *)
Definition try_catch {S A} (p : Prog S A) (h : Exn -> Prog S A) : Prog S A :=
  fun s =>
    match p s with
    | (inr a, s') => (inr a, s')
    | (inl e, s') => h e s'
    end.

(** A synchronous result turned into a computation. *)
Definition of_result {S A} (r : Exn + A) : Prog S A := fun s => (r, s).

Declare Scope prog_scope.
Delimit Scope prog_scope with prog.
Notation "'let*' x ':=' c 'in' k" := (bind c (fun x => k))
  (at level 10, x pattern, c at level 100, k at level 200) : prog_scope.
Notation "c ';;' k" := (bind c (fun _ => k))
  (at level 100, k at level 200, right associativity) : prog_scope.
Local Open Scope prog_scope.

(** Modelled from the spec: [promiseMap] of tutanota-utils is not part of the
    sources at hand.  The mapper runs on the elements in input order, one
    after the other; the results keep the input order; the first rejection
    rejects the whole map.  (The bounded concurrency of some call sites is
    not represented: the steps of two elements are never interleaved.) *)
Fixpoint promiseMap {S A B} (iterable : list A) (mapper : A -> Prog S B) : Prog S (list B) :=
  match iterable with
  | [] => ret []
  | x :: rest =>
      let* y := mapper x in
      let* ys := promiseMap rest mapper in
      ret (y :: ys)
  end.

(** Modelled from the spec: [ofClass] of tutanota-utils is not part of the
    sources at hand.  [p.catch(ofClass(C, h))] handles the rejections that
    are instances of [C] and lets every other one through. *)
Definition catch_ofClass {S A} (isC : Exn -> bool) (p : Prog S A) (h : Exn -> Prog S A) : Prog S A :=
  try_catch p (fun e => if isC e then h e else throw e).

(** ** The world and the collaborators *)

(** The state of a run: the collaborators' world and the trace of calls. *)
Record State (W : Type) := mkState { world : W; trace : list Event }.

(** One call to a collaborator: it acts on the world and is recorded. *)
Definition perform {W A} (ev : Event) (f : W -> (Exn + A) * W) : Prog (State W) A :=
  fun s =>
    let '(r, w') := f (world s) in
    (r, {| world := w'; trace := trace s ++ [ev] |}).

(** Modelled from the spec: the transport contract.  One request returns the
    response body or raises a typed REST error. *)
Record RestClient (W : Type) := mkRestClient {
  request : Request -> W -> (Exn + string) * W
}.

(** Modelled from the spec: the crypto resolver contract (CryptoFacade is not
    part of the sources at hand).  All calls return promises, except
    [setNewOwnerEncSessionKey], whose throw rejects the enclosing async
    function all the same. *)
Record CryptoFacade (W : Type) := mkCryptoFacade {
  applyMigrations : TypeRef -> Value -> W -> (Exn + Value) * W;
  resolveSessionKey : TypeModel -> AnyInstance -> W -> (Exn + option Aes128Key) * W;
  applyMigrationsForInstance : Entity -> W -> (Exn + Entity) * W;
  setNewOwnerEncSessionKey : TypeModel -> Entity -> W -> (Exn + option Aes128Key) * W
}.

(** Modelled from the spec: the instance mapper contract (InstanceMapper is
    not part of the sources at hand). *)
Record InstanceMapper (W : Type) := mkInstanceMapper {
  decryptAndMapToInstance : TypeModel -> Value -> option Aes128Key -> W -> (Exn + Entity) * W;
  encryptAndMapToLiteral : TypeModel -> Entity -> option Aes128Key -> W -> (Exn + Value) * W
}.

(** The fields of the [EntityRestClient] class. *)
Record EntityRestClient (W : Type) := mkEntityRestClient {
  _authHeadersProvider : W -> (Exn + Params) * W;
  _restClient : RestClient W;
  _crypto : CryptoFacade W;
  _instanceMapper : InstanceMapper W
}.

(** What the module imports and the sources at hand do not define: the type
    model registry, the type verification, JSON, and the two batch limits. *)
Record Imports (W : Type) := mkImports {
  resolveTypeReference : TypeRef -> W -> (Exn + TypeModel) * W;
  _verifyType : TypeModel -> option Exn;
  JSON_parse : string -> Exn + Value;
  JSON_stringify : Value -> string;
  LOAD_MULTIPLE_LIMIT : nat;
  POST_MULTIPLE_LIMIT : nat
}.

(** The type reference imported from entities/sys/PushIdentifier. *)
Definition PushIdentifierTypeRef : TypeRef := mkTypeRef "sys" "PushIdentifier".

(** [isSameTypeRef] of tutanota-utils: same application and same type name. *)
Definition isSameTypeRef (a b : TypeRef) : bool :=
  String.eqb (app a) (app b) && String.eqb (type a) (type b).

(** Modelled from the spec: [expandId] of EntityRestCache is not part of the
    sources at hand.  It splits an id into [(listId, elementId)]: a bare
    element id has no list id, a pair gives both.  A missing id cannot be
    split. *)
Definition expandId (id : option IdValue) : Exn + (option Id * Id) :=
  match id with
  | Some (ElementId elementId) => inr (None, elementId)
  | Some (IdTuple listId elementId) => inr (Some listId, elementId)
  | None => inl (TypeError "id is not iterable")
  end.

(** Truthiness of an optional string: [if (listId)]. *)
Definition truthy (o : option string) : bool :=
  match o with
  | Some s => negb (String.eqb s "")
  | None => false
  end.

(** Truthiness of an optional id value: [if (!instance._id)]; an array is
    always truthy. *)
Definition truthy_id (o : option IdValue) : bool :=
  match o with
  | Some (ElementId s) => negb (String.eqb s "")
  | Some (IdTuple _ _) => true
  | None => false
  end.

(** [Object.assign(target, ...sources)]: later sources win; [null] and
    [undefined] sources are skipped. *)
Definition Object_assign (target : Params) (sources : list (option Params)) : Params :=
  fold_left (fun acc src => match src with Some m => m ∪ acc | None => acc end) sources target.

(** [Object.keys(o).length === 0] *)
Definition has_no_keys (o : Params) : bool := Nat.eqb (size o) 0.

(** [a.map(f)] on a parsed value: only arrays have [map]. *)
Definition Array_map (f : Value -> Exn + Value) (a : Value) : Exn + list Value :=
  match a with
  | VArray items =>
      fold_right (fun x acc =>
        match f x, acc with
        | inr y, inr ys => inr (y :: ys)
        | inl e, _ => inl e
        | inr _, inl e => inl e
        end) (inr []) items
  | VUndefined | VNull => inl (TypeError "Cannot read properties of null or undefined: map")
  | _ => inl (TypeError "map is not a function")
  end.

(** Modelled from the spec: [promiseMap] of tutanota-utils when it is handed
    a parsed response.  The GET list and multi endpoints return a JSON array
    of wire instances, which is mapped in the order of the array; the
    mapping of any other value is outside that contract, and is taken to be
    rejected before the mapper is called. *)
Definition promiseMap_parsed {S B} (iterable : Value) (mapper : Value -> Prog S B)
    : Prog S (list B) :=
  match iterable with
  | VArray items => promiseMap items mapper
  | _ => throw (TypeError "not iterable")
  end.

(** The mutable lists captured by the chunk handler of [setupMultiple]. *)
Record Locals := mkLocals { errors : list Exn; failedInstances : list Entity }.

(** A computation that does not touch the captured variables. *)
Definition lift {L S A} (p : Prog S A) : Prog (L * S) A :=
  fun ls => let '(r, s') := p (snd ls) in (r, (fst ls, s')).

Definition modify_locals {L S} (f : L -> L) : Prog (L * S) unit :=
  fun ls => (inr tt, (f (fst ls), snd ls)).

Definition get_locals {L S} : Prog (L * S) L :=
  fun ls => (inr (fst ls), ls).

(** A block that declares the variables, runs, and drops them. *)
Definition with_locals {L S A} (init : L) (p : Prog (L * S) A) : Prog S A :=
  fun s => let '(r, ls) := p (init, s) in (r, snd ls).

(** [errors.push(e); failedInstances.push(...instances)] *)
Definition record_failure (e : Exn) (instances : list Entity) (l : Locals) : Locals :=
  {| errors := errors l ++ [e]; failedInstances := failedInstances l ++ instances |}.

(** What [_validateAndPrepareRestRequest] returns. *)
Record PreparedRequest := mkPreparedRequest {
  prepared_path : string;
  prepared_queryParams : Params;
  prepared_headers : Params;
  prepared_typeModel : TypeModel
}.

(** ** The operations of [EntityRestClient] *)

Section Operations.
Context {W : Type}.
Variable imports : Imports W.
Variable this : EntityRestClient W.

Definition typeRefToPath (typeRef : TypeRef) : string :=
  "/rest/" +:+ app typeRef +:+ "/" +:+ toLowerCase (type typeRef).

(** [this._restClient.request(path, method, queryParams, headers, body, responseType)] *)
Definition restClient_request (r : Request) : Prog (State W) string :=
  perform (EvRequest r) (request (_restClient this) r).

(** [console.log(msg, e)] *)
Definition console_log (msg : string) (e : Exn) : Prog (State W) unit :=
  perform (EvConsoleLog msg e) (fun w => (inr tt, w)).

Definition _validateAndPrepareRestRequest
    (typeRef : TypeRef) (listId elementId : option Id)
    (queryParameters extraHeaders : option Params) : Prog (State W) PreparedRequest :=
  let* typeModel := perform (EvResolveTypeReference typeRef) (resolveTypeReference imports typeRef) in
  match _verifyType imports typeModel with
  | Some e => throw e
  | None =>
      let path := typeRefToPath typeRef in
      let path := if truthy listId then path +:+ "/" +:+ default "" listId else path in
      let path := if truthy elementId then path +:+ "/" +:+ default "" elementId else path in
      let queryParams := default ∅ queryParameters in
      let* authHeaders := perform EvAuthHeaders (_authHeadersProvider this) in
      let headers := Object_assign ∅ [Some authHeaders; extraHeaders] in
      if has_no_keys headers
      then throw (NotAuthenticatedError "user must be authenticated for entity requests")
      else
        let headers := <["v" := version typeModel]> headers in
        ret (mkPreparedRequest path queryParams headers typeModel)
  end.

(** The session key of a loaded instance: "not found" is logged and turned
    into [null]. *)
Definition resolveSessionKey_or_null (typeModel : TypeModel) (instance : AnyInstance)
    : Prog (State W) (option Aes128Key) :=
  catch_ofClass instanceof_SessionKeyNotFoundError
    (perform (EvResolveSessionKey typeModel instance)
             (resolveSessionKey (_crypto this) typeModel instance))
    (fun e => console_log "could not resolve session key" e ;; ret None).

Definition load (typeRef : TypeRef) (id : IdValue)
    (queryParameters extraHeaders : option Params) : Prog (State W) Entity :=
  let* ids := of_result (expandId (Some id)) in
  let '(listId, elementId) := ids in
  let* p := _validateAndPrepareRestRequest typeRef listId (Some elementId) queryParameters extraHeaders in
  let* json := restClient_request
    (mkRequest (prepared_path p) GET (prepared_queryParams p) (prepared_headers p) None (Some Json)) in
  let* entity := of_result (JSON_parse imports json) in
  let* migratedEntity := perform (EvApplyMigrations typeRef entity)
                                 (applyMigrations (_crypto this) typeRef entity) in
  let* sessionKey := resolveSessionKey_or_null (prepared_typeModel p) (Literal migratedEntity) in
  let* instance := perform (EvDecryptAndMapToInstance (prepared_typeModel p) migratedEntity sessionKey)
                           (decryptAndMapToInstance (_instanceMapper this) (prepared_typeModel p) migratedEntity sessionKey) in
  perform (EvApplyMigrationsForInstance instance)
          (applyMigrationsForInstance (_crypto this) instance).

(** The decoding of one loaded instance: session key ("not found" gives
    [null]), decryption, migrations of the decrypted instance. *)
Definition decode_instance (model : TypeModel) (instance : Value) : Prog (State W) Entity :=
  let* sk := resolveSessionKey_or_null model (Literal instance) in
  let* decryptedInstance := perform (EvDecryptAndMapToInstance model instance sk)
                                    (decryptAndMapToInstance (_instanceMapper this) model instance sk) in
  perform (EvApplyMigrationsForInstance decryptedInstance)
          (applyMigrationsForInstance (_crypto this) decryptedInstance).

(** It is handed the parsed response as it is, and resolves the type model
    before anything is iterated.  The migration pass over a batch keeps none
    of its results: the decoding reads [loadedEntities] again. *)
Definition _handleLoadMultipleResult (typeRef : TypeRef) (loadedEntities : Value)
    : Prog (State W) (list Entity) :=
  let* model := perform (EvResolveTypeReference typeRef) (resolveTypeReference imports typeRef) in
  (if isSameTypeRef typeRef PushIdentifierTypeRef
   then promiseMap_parsed loadedEntities (fun instance =>
          perform (EvApplyMigrations typeRef instance)
                  (applyMigrations (_crypto this) typeRef instance)) ;; ret tt
   else ret tt) ;;
  promiseMap_parsed loadedEntities (decode_instance model).

Definition rangeRequestParams (start : Id) (count : Z) (reverse : bool) : Params :=
  <["start" := start]> (<["count" := String_of_number count]>
    (<["reverse" := String_of_boolean reverse]> ∅)).

Definition loadRange (typeRef : TypeRef) (listId start : Id) (count : Z) (reverse : bool)
    : Prog (State W) (list Entity) :=
  let* p := _validateAndPrepareRestRequest typeRef (Some listId) None
              (Some (rangeRequestParams start count reverse)) None in
  if negb (TypeKind_eqb (typeModel_type (prepared_typeModel p)) ListElement)
  then throw (Error "only ListElement types are permitted")
  else
    let* json := restClient_request
      (mkRequest (prepared_path p) GET (prepared_queryParams p) (prepared_headers p) None (Some Json)) in
    let* parsed := of_result (JSON_parse imports json) in
    _handleLoadMultipleResult typeRef parsed.

(** The request of one chunk of [loadMultiple]. *)
Definition loadMultiple_request (p : PreparedRequest) (idChunk : list Id) : Request :=
  mkRequest (prepared_path p) GET {[ "ids" := join "," idChunk ]} (prepared_headers p) None (Some Json).

Definition loadMultiple (typeRef : TypeRef) (listId : option Id) (elementIds : list Id)
    : Prog (State W) (list Entity) :=
  let* p := _validateAndPrepareRestRequest typeRef listId None None None in
  let idChunks := splitInChunks (LOAD_MULTIPLE_LIMIT imports) elementIds in
  let* loadedChunks := promiseMap idChunks (fun idChunk =>
    let* json := restClient_request (loadMultiple_request p idChunk) in
    let* parsed := of_result (JSON_parse imports json) in
    _handleLoadMultipleResult typeRef parsed) in
  ret (flat loadedChunks).

(** The pairing of shape and list id, checked by [setup] and
    [setupMultiple]. *)
Definition check_listId (typeModel : TypeModel) (listId : option Id) : Prog (State W) unit :=
  if TypeKind_eqb (typeModel_type typeModel) ListElement
  then (if negb (truthy listId) then throw (Error "List id must be defined for LETs") else ret tt)
  else (if truthy listId then throw (Error "List id must not be defined for ETs") else ret tt).

(** A new owner key for the instance, then its wire literal. *)
Definition encrypt_new (typeModel : TypeModel) (instance : Entity) : Prog (State W) Value :=
  let* sk := perform (EvSetNewOwnerEncSessionKey typeModel instance)
                     (setNewOwnerEncSessionKey (_crypto this) typeModel instance) in
  perform (EvEncryptAndMapToLiteral typeModel instance sk)
          (encryptAndMapToLiteral (_instanceMapper this) typeModel instance sk).

Definition setup (listId : option Id) (instance : Entity) (extraHeaders : option Params)
    : Prog (State W) Value :=
  let typeRef := _type instance in
  let* p := _validateAndPrepareRestRequest typeRef listId None None extraHeaders in
  check_listId (prepared_typeModel p) listId ;;
  let* encryptedEntity := encrypt_new (prepared_typeModel p) instance in
  let* persistencePostReturn := restClient_request
    (mkRequest (prepared_path p) POST (prepared_queryParams p) (prepared_headers p)
               (Some (JSON_stringify imports encryptedEntity)) (Some Json)) in
  let* parsed := of_result (JSON_parse imports persistencePostReturn) in
  of_result (getProp "generatedId" parsed).

(** The [try] block of the chunk handler of [setupMultiple]: encrypt every
    member, POST the batch, read the generated ids. *)
Definition setupMultiple_post (p : PreparedRequest) (instanceChunk : list Entity)
    : Prog (State W) (list Value) :=
  let* encryptedEntities := promiseMap instanceChunk (encrypt_new (prepared_typeModel p)) in
  let queryParams : Params := {[ "count" := String_of_number (Z.of_nat (length instanceChunk)) ]} in
  let* persistencePostReturn := restClient_request
    (mkRequest (prepared_path p) POST queryParams (prepared_headers p)
               (Some (JSON_stringify imports (VArray encryptedEntities))) (Some Json)) in
  let* postReturn := of_result (JSON_parse imports persistencePostReturn) in
  of_result (Array_map (getProp "generatedId") postReturn).

(** The fallback of the chunk handler: one [setup] per instance, each with
    its own [catch]. *)
Definition setupMultiple_fallback (listId : option Id) (instanceChunk : list Entity)
    : Prog (Locals * State W) (list Value) :=
  let* returnedIds := promiseMap instanceChunk (fun instance =>
    try_catch (lift (setup listId instance None))
              (fun e => modify_locals (record_failure e [instance]) ;; ret VUndefined)) in
  ret (List.filter Boolean returnedIds).

(** The chunk handler of [setupMultiple]. *)
Definition setupMultiple_chunk (listId : option Id) (p : PreparedRequest)
    (instanceChunk : list Entity) : Prog (Locals * State W) (list Value) :=
  try_catch (lift (setupMultiple_post p instanceChunk))
    (fun e =>
       if instanceof_PayloadTooLargeError e
       then setupMultiple_fallback listId instanceChunk
       else modify_locals (record_failure e instanceChunk) ;; ret []).

Definition setupMultiple (listId : option Id) (instances : list Entity)
    : Prog (State W) (list Value) :=
  let count := length instances in
  if Nat.ltb count 1 then ret [] else
  let instanceChunks := splitInChunks (POST_MULTIPLE_LIMIT imports) instances in
  match head instances with
  | None => throw (TypeError "Cannot read properties of undefined: _type")
  | Some first =>
      let typeRef := _type first in
      let* p := _validateAndPrepareRestRequest typeRef listId None None None in
      check_listId (prepared_typeModel p) listId ;;
      with_locals (mkLocals [] [])
        (let* idChunks := promiseMap instanceChunks (setupMultiple_chunk listId p) in
         let* l := get_locals in
         if negb (Nat.eqb (length (errors l)) 0)
         then throw (SetupMultipleError "Setup multiple entities failed" (errors l) (failedInstances l))
         else ret (flat idChunks))
  end.

Definition update (instance : Entity) : Prog (State W) unit :=
  if negb (truthy_id (_id instance)) then throw (Error "Id must be defined") else
  let* ids := of_result (expandId (_id instance)) in
  let '(listId, elementId) := ids in
  let* p := _validateAndPrepareRestRequest (_type instance) listId (Some elementId) None None in
  let* sessionKey := perform (EvResolveSessionKey (prepared_typeModel p) (Instance instance))
                             (resolveSessionKey (_crypto this) (prepared_typeModel p) (Instance instance)) in
  let* encryptedEntity := perform (EvEncryptAndMapToLiteral (prepared_typeModel p) instance sessionKey)
                                  (encryptAndMapToLiteral (_instanceMapper this) (prepared_typeModel p) instance sessionKey) in
  restClient_request
    (mkRequest (prepared_path p) PUT (prepared_queryParams p) (prepared_headers p)
               (Some (JSON_stringify imports encryptedEntity)) (Some Json)) ;;
  ret tt.

Definition erase (instance : Entity) : Prog (State W) unit :=
  let* ids := of_result (expandId (_id instance)) in
  let '(listId, elementId) := ids in
  let* p := _validateAndPrepareRestRequest (_type instance) listId (Some elementId) None None in
  restClient_request
    (mkRequest (prepared_path p) DELETE (prepared_queryParams p) (prepared_headers p) None None) ;;
  ret tt.

End Operations.

(** ** The failure policy of bulk creation, in the words of the specification

    The specification describes the policy without mutable accumulators: each
    chunk yields its recorded errors, its failed instances and its generated
    ids, and the outcomes are put together in chunk order.  These definitions
    follow that description; the theorems compare them with [setupMultiple]. *)

Section FailurePolicy.
Context {W : Type}.
Variable imports : Imports W.
Variable this : EntityRestClient W.

(** What one chunk contributes. *)
Record ChunkOutcome := mkChunkOutcome {
  recorded_errors : list Exn;
  recorded_failed : list Entity;
  generated_ids : list Value
}.

Definition join_outcomes (a b : ChunkOutcome) : ChunkOutcome :=
  mkChunkOutcome (recorded_errors a ++ recorded_errors b)
                 (recorded_failed a ++ recorded_failed b)
                 (generated_ids a ++ generated_ids b).

(** Every instance of the chunk is retried through single [setup]; each
    failure is recorded with its instance, each success gives its id. *)
Fixpoint spec_retry_each (listId : option Id) (instanceChunk : list Entity) (s : State W)
    : ChunkOutcome * State W :=
  match instanceChunk with
  | [] => (mkChunkOutcome [] [] [], s)
  | instance :: rest =>
      match setup imports this listId instance None s with
      | (inr id, s1) =>
          let '(o, s2) := spec_retry_each listId rest s1 in
          (join_outcomes (mkChunkOutcome [] [] (if Boolean id then [id] else [])) o, s2)
      | (inl e, s1) =>
          let '(o, s2) := spec_retry_each listId rest s1 in
          (join_outcomes (mkChunkOutcome [e] [instance] []) o, s2)
      end
  end.

(** One chunk: the batched POST; on "payload too large" the retry of every
    instance; on any other failure the error once and the whole chunk as
    failed. *)
Definition spec_chunk (listId : option Id) (p : PreparedRequest) (instanceChunk : list Entity)
    (s : State W) : ChunkOutcome * State W :=
  match setupMultiple_post imports this p instanceChunk s with
  | (inr ids, s1) => (mkChunkOutcome [] [] ids, s1)
  | (inl e, s1) =>
      if instanceof_PayloadTooLargeError e
      then spec_retry_each listId instanceChunk s1
      else (mkChunkOutcome [e] instanceChunk [], s1)
  end.

(** All chunks, in chunk order. *)
Fixpoint spec_chunks (listId : option Id) (p : PreparedRequest)
    (instanceChunks : list (list Entity)) (s : State W) : ChunkOutcome * State W :=
  match instanceChunks with
  | [] => (mkChunkOutcome [] [] [], s)
  | c :: rest =>
      let '(o1, s1) := spec_chunk listId p c s in
      let '(o2, s2) := spec_chunks listId p rest s1 in
      (join_outcomes o1 o2, s2)
  end.

(** After all chunks: the aggregate error if any failure was recorded,
    the ids otherwise. *)
Definition spec_result (o : ChunkOutcome) : Exn + list Value :=
  match recorded_errors o with
  | [] => inr (generated_ids o)
  | _ :: _ => inl (SetupMultipleError "Setup multiple entities failed"
                                       (recorded_errors o) (recorded_failed o))
  end.

(** The captured lists after a chunk outcome has been recorded. *)
Definition absorb (l : Locals) (o : ChunkOutcome) : Locals :=
  mkLocals (errors l ++ recorded_errors o) (failedInstances l ++ recorded_failed o).

End FailurePolicy.

(** ** The footprint of a computation *)

(** Whatever the outcome, the computation only appends to the trace, and
    every event it appends satisfies [Q]. *)
Definition emits_on {S A} (tr : S -> list Event) (Q : Event -> Prop) (p : Prog S A) : Prop :=
  forall s r s', p s = (r, s') -> exists evs, tr s' = tr s ++ evs /\ Forall Q evs.

(** Neither a request nor an encryption step. *)
Definition quiet (ev : Event) : Prop := is_request ev = false /\ is_encryption ev = false.

Definition not_request (ev : Event) : Prop := is_request ev = false.

(** The trace of a state that also carries captured variables. *)
Definition trace_l {L W} (ls : L * State W) : list Event := trace (snd ls).

(** An outcome that is a failure reached without any request and without any
    encryption step. *)
Definition fails_fast {W A} (s : State W) (out : (Exn + A) * State W) : Prop :=
  (exists e, fst out = inl e) /\
  (exists evs, trace (snd out) = trace s ++ evs /\ Forall quiet evs).

(** ** Request preparation, in the words of the specification *)

(** A path segment for an optional id: nothing when the id is absent or
    empty. *)
Definition segment (o : option Id) : string :=
  match o with
  | Some s => if String.eqb s "" then "" else "/" +:+ s
  | None => ""
  end.

Definition spec_path (typeRef : TypeRef) (listId elementId : option Id) : string :=
  ("/rest/" +:+ app typeRef +:+ "/" +:+ toLowerCase (type typeRef))
    +:+ segment listId +:+ segment elementId.

(** The merged header set: the provider's headers, overridden by the
    caller's. *)
Definition merged_headers (authHeaders : Params) (extraHeaders : option Params) : Params :=
  default ∅ extraHeaders ∪ authHeaders.

(** The header [v] of a prepared request is the version of its type model,
    and the registry resolved that model. *)
Definition versioned {W} (imports : Imports W) (hs : Params) (tm : TypeModel) : Prop :=
  hs !! "v" = Some (version tm) /\
  exists typeRef w, fst (resolveTypeReference imports typeRef w) = inr tm.

(** If the event is a request, its header [v] is the version of a type model
    of the registry. *)
Definition stamped {W} (imports : Imports W) (ev : Event) : Prop :=
  forall r, ev = EvRequest r -> exists tm, versioned imports (headers r) tm.

(** The wrong pairing of shape and list id: a [ListElement] type without a
    (non-empty) list id, or another type with one. *)
Definition mismatch (tm : TypeModel) (listId : option Id) : Prop :=
  (typeModel_type tm = ListElement /\ truthy listId = false) \/
  (typeModel_type tm <> ListElement /\ truthy listId = true).

(** ** Bulk loading, in the words of the specification *)


(** The entity is the decoding of the wire instance, with a type model the
    registry resolved for the type reference. *)
Definition decoded {W} (imports : Imports W) (this : EntityRestClient W)
    (typeRef : TypeRef) (instance : Value) (entity : Entity) : Prop :=
  exists w model s s',
    fst (resolveTypeReference imports typeRef w) = inr model /\
    decode_instance this model instance s = (inr entity, s').

(** ** Contracts of the collaborators *)

(** Modelled from the spec: the instance mapper "degrades gracefully on null
    key".  Without a session key it still returns an entity, and marks it
    with [_errors]. *)
Definition degrades_on_null_key {W} (m : InstanceMapper W) : Prop :=
  forall tm raw w,
    exists d w', decryptAndMapToInstance m tm raw None w = (inr d, w') /\ _errors d <> None.

(** Modelled from the spec: the migrations of a decrypted instance return
    the assembled entity; they leave its error markers alone. *)
Definition migrations_keep_errors {W} (c : CryptoFacade W) : Prop :=
  forall d w,
    exists r w', applyMigrationsForInstance c d w = (inr r, w') /\ _errors r = _errors d.

(** ** The identity of an instance *)

(** An id as a JavaScript value: a string, or an array of two strings. *)
Definition Value_of_id (id : IdValue) : Value :=
  match id with
  | ElementId elementId => VString elementId
  | IdTuple listId elementId => VArray [VString listId; VString elementId]
  end.

(** [v[i]]: a character of a string, an item of an array, [undefined]
    beyond the end and on the other values that can be indexed. *)
Definition index (v : Value) (i : nat) : Value :=
  match v with
  | VString s =>
      match String.get i s with
      | Some c => VString (String c EmptyString)
      | None => VUndefined
      end
  | VArray items => nth i items VUndefined
  | _ => VUndefined
  end.

(** The exported [getIds]: the pair [(listId, id)] of the returned object. *)
Definition getIds (instance : Entity) (typeModel : TypeModel) : Exn + (Value * Value) :=
  if negb (truthy_id (_id instance)) then inl (Error "Id must be defined") else
  let _id_value := match _id instance with
                   | Some id => Value_of_id id
                   | None => VNull
                   end in
  if TypeKind_eqb (typeModel_type typeModel) ListElement
  then inr (index _id_value 0, index _id_value 1)
  else inr (VNull, _id_value).

(** ** What an operation may call *)

(** The calls of a read: requests are GETs without a body that expect JSON,
    and nothing is encrypted. *)
Definition read_event (ev : Event) : Prop :=
  match ev with
  | EvRequest r => method r = GET /\ body r = None /\ responseType r = Some Json
  | EvSetNewOwnerEncSessionKey _ _ | EvEncryptAndMapToLiteral _ _ _ => False
  | _ => True
  end.

(** The calls of a creation: requests are POSTs with a body; no session key
    is resolved and nothing is decrypted or migrated. *)
Definition create_event (ev : Event) : Prop :=
  match ev with
  | EvRequest r => method r = POST /\ is_Some (body r)
  | EvResolveTypeReference _ | EvAuthHeaders
  | EvSetNewOwnerEncSessionKey _ _ | EvEncryptAndMapToLiteral _ _ _ => True
  | _ => False
  end.

(** The calls of an update: requests are PUTs with a body; the session key
    is resolved, never minted. *)
Definition update_event (ev : Event) : Prop :=
  match ev with
  | EvRequest r => method r = PUT /\ is_Some (body r)
  | EvResolveTypeReference _ | EvAuthHeaders
  | EvResolveSessionKey _ _ | EvEncryptAndMapToLiteral _ _ _ => True
  | _ => False
  end.

(** The calls of a deletion: requests are DELETEs without a body; the crypto
    facade and the instance mapper are not called. *)
Definition erase_event (ev : Event) : Prop :=
  match ev with
  | EvRequest r => method r = DELETE /\ body r = None
  | EvResolveTypeReference _ | EvAuthHeaders => True
  | _ => False
  end.

(** Whatever the outcome, the computation issues at most [n] requests. *)
Definition sends_at_most {S A} (tr : S -> list Event) (n : nat) (p : Prog S A) : Prop :=
  forall s r s',
    p s = (r, s') -> length (requests (tr s')) <= length (requests (tr s)) + n.

(** The provider has no authentication headers to give. *)
Definition unauthenticated {W} (this : EntityRestClient W) : Prop :=
  forall w, fst (_authHeadersProvider this w) = inr ∅.

(** The right pairing of shape and list id. *)
Definition paired (tm : TypeModel) (listId : option Id) : Prop :=
  (typeModel_type tm = ListElement /\ truthy listId = true) \/
  (typeModel_type tm <> ListElement /\ truthy listId = false).

(** Whatever the outcome, the computation only adds requests that satisfy
    [P] to the requests of the trace. *)
Definition every_request {W A} (P : Request -> Prop) (p : Prog (State W) A) : Prop :=
  forall s r s',
    p s = (r, s') ->
    exists sent, requests (trace s') = requests (trace s) ++ sent /\ Forall P sent.

(** The header [v] of the request is the version of a type model that the
    registry resolved. *)
Definition versioned_request {W} (imports : Imports W) (r : Request) : Prop :=
  exists tm, versioned imports (headers r) tm.

(** The literal is what the instance mapper returned for the instance,
    encrypted with the owner key that the crypto facade had just minted for
    it. *)
Definition encrypted_as {W} (this : EntityRestClient W) (tm : TypeModel)
    (instance : Entity) (literal : Value) : Prop :=
  exists w sk w1 w2,
    setNewOwnerEncSessionKey (_crypto this) tm instance w = (inr sk, w1) /\
    encryptAndMapToLiteral (_instanceMapper this) tm instance sk w1 = (inr literal, w2).

(** A single creation of a bulk creation: a POST without query parameters
    for one of the instances, whose body is the literal of that instance, as
    JSON, encrypted under the type model of its own type reference. *)
Definition single_creation {W} (imports : Imports W) (this : EntityRestClient W)
    (instances : list Entity) (r : Request) : Prop :=
  exists instance tm literal,
    instance ∈ instances /\
    (exists w, fst (resolveTypeReference imports (_type instance) w) = inr tm) /\
    encrypted_as this tm instance literal /\
    method r = POST /\
    queryParams r = ∅ /\
    body r = Some (JSON_stringify imports literal).

(** A batch of a bulk creation: a POST for one of the chunks of the
    instances, of at least one and at most [POST_MULTIPLE_LIMIT] instances,
    whose query parameter [count] is the size of the chunk and whose body is
    the array of the literals of the instances of the chunk, in order, as
    JSON, all encrypted under the type model of the first instance. *)
Definition batch_creation {W} (imports : Imports W) (this : EntityRestClient W)
    (instances : list Entity) (r : Request) : Prop :=
  exists instanceChunk first tm encryptedEntities,
    instanceChunk ∈ splitInChunks (POST_MULTIPLE_LIMIT imports) instances /\
    0 < length instanceChunk <= POST_MULTIPLE_LIMIT imports /\
    head instances = Some first /\
    (exists w, fst (resolveTypeReference imports (_type first) w) = inr tm) /\
    Forall2 (encrypted_as this tm) instanceChunk encryptedEntities /\
    method r = POST /\
    queryParams r = {[ "count" := String_of_number (Z.of_nat (length instanceChunk)) ]} /\
    body r = Some (JSON_stringify imports (VArray encryptedEntities)).

(** If the event is a request, it is a single creation or a batch. *)
Definition single_or_batch {W} (imports : Imports W) (this : EntityRestClient W)
    (instances : list Entity) (ev : Event) : Prop :=
  match ev with
  | EvRequest r => single_creation imports this instances r \/
                   batch_creation imports this instances r
  | _ => True
  end.

(** ** Collaborators that do not fail while decoding a batch *)

(** Key resolution either gives a key (or none) or raises
    [SessionKeyNotFoundError]. *)
Definition key_or_not_found {W} (c : CryptoFacade W) : Prop :=
  forall tm i w,
    match fst (resolveSessionKey c tm i w) with
    | inr _ => True
    | inl e => instanceof_SessionKeyNotFoundError e = true
    end.

(** Decryption, with or without a key, and the migrations before and after
    it return. *)
Definition decoding_returns {W} (this : EntityRestClient W) : Prop :=
  (forall tm raw sk w,
     exists d, fst (decryptAndMapToInstance (_instanceMapper this) tm raw sk w) = inr d) /\
  (forall d w, exists r, fst (applyMigrationsForInstance (_crypto this) d w) = inr r) /\
  (forall t raw w, exists m, fst (applyMigrations (_crypto this) t raw w) = inr m).

(** ** A small world to run the client in *)

Module Example.

(** The world: the responses the server has yet to give, in order. *)
Definition World := list (Exn + string).

Definition MailTypeRef : TypeRef := mkTypeRef "tutanota" "Mail".
Definition UserTypeRef : TypeRef := mkTypeRef "sys" "User".

Definition MailModel : TypeModel := mkTypeModel ListElement "46".
Definition UserModel : TypeModel := mkTypeModel Element "69".

Definition example_resolveTypeReference (t : TypeRef) (w : World) : (Exn + TypeModel) * World :=
  if isSameTypeRef t MailTypeRef then (inr MailModel, w)
  else if isSameTypeRef t UserTypeRef then (inr UserModel, w)
  else (inl (Error "cannot resolve type reference"), w).

Definition example_verifyType (tm : TypeModel) : option Exn :=
  match typeModel_type tm with
  | OtherKind _ => Some (Error "only Element and ListElement types are permitted")
  | _ => None
  end.

(** The response bodies the example server uses, with their parsed form. *)
Definition bodies : list (string * Value) :=
  [ ("[]", VArray []);
    ("{}", VObject []);
    ("{generatedId:a}", VObject [("generatedId", VString "a")]);
    ("{generatedId:b}", VObject [("generatedId", VString "b")]);
    ("[{generatedId:a},{generatedId:b}]",
       VArray [VObject [("generatedId", VString "a")]; VObject [("generatedId", VString "b")]]);
    ("[{generatedId:c}]", VArray [VObject [("generatedId", VString "c")]]);
    ("[m1]", VArray [VString "m1"]);
    ("[m1,m2]", VArray [VString "m1"; VString "m2"]);
    ("[locked]", VArray [VString "locked"]);
    ("m1", VString "m1");
    ("locked", VString "locked") ].

Fixpoint lookup_body (s : string) (table : list (string * Value)) : Exn + Value :=
  match table with
  | [] => inl (SyntaxError "Unexpected token")
  | (k, v) :: rest => if String.eqb s k then inr v else lookup_body s rest
  end.

Definition example_parse (s : string) : Exn + Value := lookup_body s bodies.

Definition example_stringify (v : Value) : string :=
  match v with
  | VString s => s
  | VArray _ => "[...]"
  | _ => "{...}"
  end.

Definition example_imports : Imports World :=
  mkImports example_resolveTypeReference example_verifyType example_parse example_stringify 2 2.

Definition example_restClient : RestClient World :=
  mkRestClient (fun _ w =>
    match w with
    | [] => (inl (RestError 500 "no response"), [])
    | r :: rest => (r, rest)
    end).

(** Instances whose content is ["locked"] have no session key. *)
Definition is_locked (v : Value) : bool :=
  match v with VString s => String.eqb s "locked" | _ => false end.

Definition example_crypto : CryptoFacade World :=
  mkCryptoFacade
    (fun _ raw w => (inr raw, w))
    (fun _ i w =>
       let v := match i with Literal v => v | Instance e => content e end in
       if is_locked v then (inl (SessionKeyNotFoundError "no session key"), w)
       else (inr (Some [1; 2]%Z), w))
    (fun e w => (inr e, w))
    (fun _ _ w => (inr (Some [3; 4]%Z), w)).

(** Decryption without a key still gives an entity, with [_errors] set. *)
Definition example_mapper : InstanceMapper World :=
  mkInstanceMapper
    (fun tm raw sk w =>
       let t := if TypeKind_eqb (typeModel_type tm) ListElement then MailTypeRef else UserTypeRef in
       let errs := match sk with
                   | None => Some (VObject [("_sessionKey", VString "missing")])
                   | Some _ => None
                   end in
       (inr (mkEntity t None errs raw), w))
    (fun _ e _ w => (inr (content e), w)).

Definition example_client (auth : Params) : EntityRestClient World :=
  mkEntityRestClient (fun w => (inr auth, w)) example_restClient example_crypto example_mapper.

Definition loggedIn : EntityRestClient World := example_client {[ "accessToken" := "t0ken" ]}.
Definition loggedOut : EntityRestClient World := example_client ∅.

Definition start (responses : World) : State World := mkState responses [].

Definition mail (elementId : Id) (text : string) : Entity :=
  mkEntity MailTypeRef (Some (IdTuple "inbox" elementId)) None (VString text).

Definition user (id : Id) (text : string) : Entity :=
  mkEntity UserTypeRef (Some (ElementId id)) None (VString text).

End Example.

(** * Properties *)

(** ** Computations *)

Section ProgFacts.
Context {S A B : Type}.

Lemma bind_ok (p : Prog S A) (k : A -> Prog S B) s a s1 :
  p s = (inr a, s1) -> bind p k s = k a s1.
Proof. intros H. unfold bind. now rewrite H. Qed.

Lemma bind_err (p : Prog S A) (k : A -> Prog S B) s e s1 :
  p s = (inl e, s1) -> bind p k s = (inl e, s1).
Proof. intros H. unfold bind. now rewrite H. Qed.

Lemma try_catch_ok (p : Prog S A) (h : Exn -> Prog S A) s a s1 :
  p s = (inr a, s1) -> try_catch p h s = (inr a, s1).
Proof. intros H. unfold try_catch. now rewrite H. Qed.

Lemma try_catch_err (p : Prog S A) (h : Exn -> Prog S A) s e s1 :
  p s = (inl e, s1) -> try_catch p h s = h e s1.
Proof. intros H. unfold try_catch. now rewrite H. Qed.
End ProgFacts.

Lemma perform_eq {W A} (ev : Event) (f : W -> (Exn + A) * W) (s : State W) :
  perform ev f s = (fst (f (world s)), mkState (snd (f (world s))) (trace s ++ [ev])).
Proof. unfold perform. now destruct (f (world s)). Qed.

Lemma lift_eq {L S A} (p : Prog S A) (l : L) (s : S) :
  lift p (l, s) = (fst (p s), (l, snd (p s))).
Proof. unfold lift. simpl. now destruct (p s). Qed.

(** ** Footprints *)

Section Footprint.
Context {S : Type} (tr : S -> list Event) (Q : Event -> Prop).

Lemma emits_ret {A} (a : A) : emits_on tr Q (ret a).
Proof.
  intros s r s' H. inversion H; subst. exists []. now rewrite app_nil_r.
Qed.

Lemma emits_throw {A} (e : Exn) : emits_on tr Q (@throw S A e).
Proof.
  intros s r s' H. inversion H; subst. exists []. now rewrite app_nil_r.
Qed.

Lemma emits_of_result {A} (x : Exn + A) : emits_on tr Q (of_result x).
Proof.
  intros s r s' H. inversion H; subst. exists []. now rewrite app_nil_r.
Qed.

Lemma emits_bind {A B} (p : Prog S A) (k : A -> Prog S B) :
  emits_on tr Q p -> (forall a, emits_on tr Q (k a)) -> emits_on tr Q (bind p k).
Proof.
  intros Hp Hk s r s' H. unfold bind in H.
  destruct (p s) as [[e | a] s1] eqn:E.
  - inversion H; subst. eapply Hp; eauto.
  - destruct (Hp _ _ _ E) as (evs1 & E1 & F1).
    destruct (Hk a _ _ _ H) as (evs2 & E2 & F2).
    exists (evs1 ++ evs2). split.
    + rewrite E2, E1. now rewrite app_assoc.
    + now apply Forall_app.
Qed.

Lemma emits_try_catch {A} (p : Prog S A) (h : Exn -> Prog S A) :
  emits_on tr Q p -> (forall e, emits_on tr Q (h e)) -> emits_on tr Q (try_catch p h).
Proof.
  intros Hp Hh s r s' H. unfold try_catch in H.
  destruct (p s) as [[e | a] s1] eqn:E.
  - destruct (Hp _ _ _ E) as (evs1 & E1 & F1).
    destruct (Hh e _ _ _ H) as (evs2 & E2 & F2).
    exists (evs1 ++ evs2). split.
    + rewrite E2, E1. now rewrite app_assoc.
    + now apply Forall_app.
  - inversion H; subst. eapply Hp; eauto.
Qed.

Lemma emits_catch_ofClass {A} isC (p : Prog S A) (h : Exn -> Prog S A) :
  emits_on tr Q p -> (forall e, emits_on tr Q (h e)) -> emits_on tr Q (catch_ofClass isC p h).
Proof.
  intros Hp Hh. apply emits_try_catch; [exact Hp |].
  intros e. destruct (isC e); [apply Hh | apply emits_throw].
Qed.

Lemma emits_promiseMap {A B} (l : list A) (f : A -> Prog S B) :
  (forall a, emits_on tr Q (f a)) -> emits_on tr Q (promiseMap l f).
Proof.
  intros Hf. induction l as [| x rest IH]; simpl.
  - apply emits_ret.
  - apply emits_bind; [apply Hf |]. intros y.
    apply emits_bind; [exact IH |]. intros ys. apply emits_ret.
Qed.
(** The same with a fact about the value handed over. *)
Lemma emits_bind_post {A B} (P : A -> Prop) (p : Prog S A) (k : A -> Prog S B) :
  emits_on tr Q p ->
  (forall s a s', p s = (inr a, s') -> P a) ->
  (forall a, P a -> emits_on tr Q (k a)) ->
  emits_on tr Q (bind p k).
Proof.
  intros Hp HP Hk s r s' H. unfold bind in H.
  destruct (p s) as [[e | a] s1] eqn:E.
  - inversion H; subst. eapply Hp; eauto.
  - destruct (Hp _ _ _ E) as (evs1 & E1 & F1).
    destruct (Hk a (HP _ _ _ E) _ _ _ H) as (evs2 & E2 & F2).
    exists (evs1 ++ evs2). split.
    + rewrite E2, E1. now rewrite app_assoc.
    + now apply Forall_app.
Qed.

End Footprint.

Lemma emits_weaken {S A} (tr : S -> list Event) (Q Q' : Event -> Prop) (p : Prog S A) :
  (forall ev, Q ev -> Q' ev) -> emits_on tr Q p -> emits_on tr Q' p.
Proof.
  intros HQ Hp s r s' H. destruct (Hp _ _ _ H) as (evs & E & F).
  exists evs. split; [exact E |]. eapply Forall_impl; eauto.
Qed.

Lemma emits_perform {W A} (Q : Event -> Prop) (ev : Event) (f : W -> (Exn + A) * W) :
  Q ev -> emits_on (@trace W) Q (perform ev f).
Proof.
  intros HQ s r s' H. rewrite perform_eq in H. inversion H; subst. simpl.
  exists [ev]. split; [reflexivity |]. now constructor.
Qed.

Lemma emits_lift {L W A} (Q : Event -> Prop) (p : Prog (State W) A) :
  emits_on (@trace W) Q p -> emits_on (@trace_l L W) Q (lift p).
Proof.
  intros Hp [l s] r [l' s'] H. rewrite lift_eq in H. inversion H; subst.
  unfold trace_l. simpl. eapply Hp. apply surjective_pairing.
Qed.

Lemma emits_modify_locals {L W} (Q : Event -> Prop) (f : L -> L) :
  emits_on (@trace_l L W) Q (modify_locals f).
Proof.
  intros [l s] r [l' s'] H. inversion H; subst. exists []. unfold trace_l. simpl.
  now rewrite app_nil_r.
Qed.

Lemma emits_get_locals {L W} (Q : Event -> Prop) :
  emits_on (@trace_l L W) Q get_locals.
Proof.
  intros [l s] r [l' s'] H. inversion H; subst. exists []. unfold trace_l. simpl.
  now rewrite app_nil_r.
Qed.

Lemma emits_with_locals {L W A} (Q : Event -> Prop) (init : L) (p : Prog (L * State W) A) :
  emits_on (@trace_l L W) Q p -> emits_on (@trace W) Q (with_locals init p).
Proof.
  intros Hp s r s' H. unfold with_locals in H.
  destruct (p (init, s)) as [r1 ls] eqn:E. inversion H; subst.
  apply (Hp _ _ _ E).
Qed.

Lemma requests_app (a b : list Event) : requests (a ++ b) = requests a ++ requests b.
Proof. unfold requests. apply omap_app. Qed.

Lemma requests_not_request (evs : list Event) : Forall not_request evs -> requests evs = [].
Proof.
  induction 1 as [| ev evs H _ IH]; [reflexivity |].
  destruct ev; simpl; try exact IH. discriminate H.
Qed.

Lemma quiet_not_request ev : quiet ev -> not_request ev.
Proof. now intros [H _]. Qed.

(** A computation that emits no request leaves the requests of the trace as
    they were. *)
Lemma emits_no_request {W A} (p : Prog (State W) A) s r s' :
  emits_on (@trace W) not_request p -> p s = (r, s') ->
  requests (trace s') = requests (trace s).
Proof.
  intros Hp H. destruct (Hp _ _ _ H) as (evs & E & F).
  rewrite E, requests_app, (requests_not_request F). apply app_nil_r.
Qed.

(** ** Strings and header maps *)

Lemma append_assoc (a b c : string) : (a +:+ b) +:+ c = a +:+ (b +:+ c).
Proof.
  induction a as [| x a IH]; [reflexivity |].
  change (String x ((a +:+ b) +:+ c) = String x (a +:+ (b +:+ c))).
  now rewrite IH.
Qed.

Lemma append_empty_r (a : string) : a +:+ "" = a.
Proof.
  induction a as [| x a IH]; [reflexivity |].
  change (String x (a +:+ "") = String x a). now rewrite IH.
Qed.

Lemma append_segment (base : string) (o : option Id) :
  (if truthy o then base +:+ "/" +:+ default "" o else base) = base +:+ segment o.
Proof.
  destruct o as [s |]; simpl.
  - destruct (String.eqb s ""); simpl; [now rewrite append_empty_r | reflexivity].
  - now rewrite append_empty_r.
Qed.

Lemma Object_assign_merged (authHeaders : Params) (extraHeaders : option Params) :
  Object_assign ∅ [Some authHeaders; extraHeaders] = merged_headers authHeaders extraHeaders.
Proof.
  unfold Object_assign, merged_headers. simpl.
  rewrite (right_id_L ∅ (∪)). destruct extraHeaders; simpl; [reflexivity |].
  now rewrite (left_id_L ∅ (∪)).
Qed.

Lemma has_no_keys_spec (m : Params) : has_no_keys m = true <-> m = ∅.
Proof.
  unfold has_no_keys. rewrite Nat.eqb_eq. apply map_size_empty_iff.
Qed.

Lemma has_no_keys_false (m : Params) : has_no_keys m = false <-> m <> ∅.
Proof.
  rewrite <- has_no_keys_spec. destruct (has_no_keys m); split; congruence.
Qed.

(** ** Request preparation *)

Section Prepare.
Context {W : Type}.
Variable imports : Imports W.
Variable this : EntityRestClient W.

(** What preparation does once the type model is resolved and verified and
    the provider has answered. *)
Lemma prepare_eq typeRef listId elementId queryParameters extraHeaders s tm w1 auth w2 :
  resolveTypeReference imports typeRef (world s) = (inr tm, w1) ->
  _verifyType imports tm = None ->
  _authHeadersProvider this w1 = (inr auth, w2) ->
  _validateAndPrepareRestRequest imports this typeRef listId elementId queryParameters extraHeaders s
  = (if has_no_keys (merged_headers auth extraHeaders)
     then inl (NotAuthenticatedError "user must be authenticated for entity requests")
     else inr (mkPreparedRequest (spec_path typeRef listId elementId)
                                 (default ∅ queryParameters)
                                 (<["v" := version tm]> (merged_headers auth extraHeaders))
                                 tm),
     mkState w2 (trace s ++ [EvResolveTypeReference typeRef; EvAuthHeaders])).
Proof.
  intros Hres Hver Hauth.
  unfold _validateAndPrepareRestRequest, bind.
  rewrite perform_eq, Hres. cbn [fst snd]. rewrite Hver.
  rewrite perform_eq. cbn [fst snd world trace]. rewrite Hauth. cbn [fst snd].
  rewrite Object_assign_merged, <- app_assoc.
  destruct (has_no_keys (merged_headers auth extraHeaders)); [reflexivity |].
  unfold ret. do 2 f_equal. unfold typeRefToPath, spec_path.
  rewrite !append_segment. rewrite !append_assoc. reflexivity.
Qed.

(** A successful preparation went through every step. *)
Lemma prepare_inv typeRef listId elementId queryParameters extraHeaders s p s' :
  _validateAndPrepareRestRequest imports this typeRef listId elementId queryParameters extraHeaders s
    = (inr p, s') ->
  exists tm w1 auth w2,
    resolveTypeReference imports typeRef (world s) = (inr tm, w1) /\
    _verifyType imports tm = None /\
    _authHeadersProvider this w1 = (inr auth, w2) /\
    merged_headers auth extraHeaders <> ∅ /\
    p = mkPreparedRequest (spec_path typeRef listId elementId)
                          (default ∅ queryParameters)
                          (<["v" := version tm]> (merged_headers auth extraHeaders))
                          tm /\
    s' = mkState w2 (trace s ++ [EvResolveTypeReference typeRef; EvAuthHeaders]).
Proof.
  intros H.
  destruct (resolveTypeReference imports typeRef (world s)) as [[e | tm] w1] eqn:Hres.
  { unfold _validateAndPrepareRestRequest, bind in H.
    rewrite perform_eq, Hres in H. discriminate H. }
  destruct (_verifyType imports tm) as [e |] eqn:Hver.
  { unfold _validateAndPrepareRestRequest, bind in H.
    rewrite perform_eq, Hres in H. cbn [fst snd] in H. rewrite Hver in H. discriminate H. }
  destruct (_authHeadersProvider this w1) as [[e | auth] w2] eqn:Hauth.
  { unfold _validateAndPrepareRestRequest, bind in H.
    rewrite perform_eq, Hres in H. cbn [fst snd] in H. rewrite Hver in H.
    rewrite perform_eq in H. cbn [fst snd world trace] in H. rewrite Hauth in H.
    discriminate H. }
  rewrite (prepare_eq _ _ _ _ _ _ Hres Hver Hauth) in H.
  destruct (has_no_keys (merged_headers auth extraHeaders)) eqn:Hk; [discriminate H |].
  inversion H; subst. exists tm, w1, auth, w2.
  repeat split; try assumption. now apply has_no_keys_false.
Qed.

(** Preparation calls the registry and the provider, nothing else. *)
Lemma prepare_quiet typeRef listId elementId queryParameters extraHeaders :
  emits_on (@trace W) quiet
    (_validateAndPrepareRestRequest imports this typeRef listId elementId queryParameters extraHeaders).
Proof.
  unfold _validateAndPrepareRestRequest.
  apply emits_bind; [apply emits_perform; now split |]. intros tm.
  destruct (_verifyType imports tm); [apply emits_throw |].
  apply emits_bind; [apply emits_perform; now split |]. intros auth.
  destruct (has_no_keys _); [apply emits_throw | apply emits_ret].
Qed.

Lemma prepare_no_request typeRef listId elementId queryParameters extraHeaders s r s' :
  _validateAndPrepareRestRequest imports this typeRef listId elementId queryParameters extraHeaders s
    = (r, s') ->
  requests (trace s') = requests (trace s).
Proof.
  apply emits_no_request. eapply emits_weaken; [| apply prepare_quiet].
  apply quiet_not_request.
Qed.

End Prepare.

(** C9.  [setupMultiple] on an empty list of instances returns the empty
    sequence and leaves the state as it was: no collaborator is called (no
    request, no type resolution, no validation, no encryption), the trace and
    the world are unchanged. *)
Theorem setupMultiple_empty {W} (imports : Imports W) (this : EntityRestClient W)
    (listId : option Id) (s : State W) :
  setupMultiple imports this listId [] s = (inr [], s).
Proof. reflexivity. Qed.

(** C2 (as amended).  Every prepared request has the path
    [/rest/<app>/<lowercased type name>], followed by [/listId] when a list id
    is given and not empty, then by [/elementId] when an element id is given
    and not empty, and nothing else. *)
Theorem prepared_path_convention {W} (imports : Imports W) (this : EntityRestClient W)
    (typeRef : TypeRef) (listId elementId : option Id)
    (queryParameters extraHeaders : option Params) (s : State W) (p : PreparedRequest) :
  fst (_validateAndPrepareRestRequest imports this typeRef listId elementId
         queryParameters extraHeaders s) = inr p ->
  prepared_path p
  = ("/rest/" +:+ app typeRef +:+ "/" +:+ toLowerCase (type typeRef))
      +:+ segment listId +:+ segment elementId.
Proof.
  intros H.
  destruct (_validateAndPrepareRestRequest imports this typeRef listId elementId
              queryParameters extraHeaders s) as [r s'] eqn:E.
  simpl in H. subst r.
  destruct (prepare_inv _ _ _ _ _ _ _ _ E) as (tm & w1 & auth & w2 & _ & _ & _ & _ & -> & _).
  reflexivity.
Qed.

Lemma prepared_path_convention_witness :
  fst (_validateAndPrepareRestRequest Example.example_imports Example.loggedIn
         Example.MailTypeRef (Some "inbox") (Some "m1") None None (Example.start []))
    = inr (mkPreparedRequest "/rest/tutanota/mail/inbox/m1" ∅
             (<["v" := "46"]> {[ "accessToken" := "t0ken" ]}) Example.MailModel)
  /\ "/rest/tutanota/mail/inbox/m1"
     = ("/rest/" +:+ "tutanota" +:+ "/" +:+ toLowerCase "Mail")
         +:+ segment (Some "inbox") +:+ segment (Some "m1").
Proof.
  assert (H : fst (_validateAndPrepareRestRequest Example.example_imports Example.loggedIn
                     Example.MailTypeRef (Some "inbox") (Some "m1") None None (Example.start []))
              = inr (mkPreparedRequest "/rest/tutanota/mail/inbox/m1" ∅
                       (<["v" := "46"]> {[ "accessToken" := "t0ken" ]}) Example.MailModel))
    by (vm_compute; reflexivity).
  split; [exact H |].
  exact (prepared_path_convention _ _ _ _ _ _ _ _ H).
Defined.

(** The path starts with [/rest]: for the type [sys/User] it is
    [/rest/sys/user], not [/sys/user]. *)
Lemma prepared_path_counterexample :
  exists p,
    fst (_validateAndPrepareRestRequest Example.example_imports Example.loggedIn
           Example.UserTypeRef None None None None (Example.start [])) = inr p
    /\ prepared_path p = "/rest/sys/user"
    /\ prepared_path p <> "/" +:+ app Example.UserTypeRef +:+ "/" +:+ toLowerCase (type Example.UserTypeRef).
Proof.
  eexists. split; [vm_compute; reflexivity |]. split; [reflexivity | discriminate].
Qed.

(** C8.  Every prepared request carries the header [v], and its value is the
    version of the type model the registry resolved for the type reference. *)
Theorem prepared_headers_version {W} (imports : Imports W) (this : EntityRestClient W)
    (typeRef : TypeRef) (listId elementId : option Id)
    (queryParameters extraHeaders : option Params) (s : State W) (p : PreparedRequest) :
  fst (_validateAndPrepareRestRequest imports this typeRef listId elementId
         queryParameters extraHeaders s) = inr p ->
  fst (resolveTypeReference imports typeRef (world s)) = inr (prepared_typeModel p) /\
  prepared_headers p !! "v" = Some (version (prepared_typeModel p)).
Proof.
  intros H.
  destruct (_validateAndPrepareRestRequest imports this typeRef listId elementId
              queryParameters extraHeaders s) as [r s'] eqn:E.
  simpl in H. subst r.
  destruct (prepare_inv _ _ _ _ _ _ _ _ E) as (tm & w1 & auth & w2 & Hres & _ & _ & _ & -> & _).
  simpl. split; [now rewrite Hres | apply lookup_insert_eq].
Qed.

Lemma prepared_headers_version_witness :
  fst (_validateAndPrepareRestRequest Example.example_imports Example.loggedIn
         Example.UserTypeRef None (Some "u1") None (Some {[ "v" := "0" ]}) (Example.start []))
    = inr (mkPreparedRequest "/rest/sys/user/u1" ∅
             (<["v" := "69"]> {[ "accessToken" := "t0ken" ]}) Example.UserModel)
  /\ (<["v" := "69"]> {[ "accessToken" := "t0ken" ]} : Params) !! "v" = Some "69".
Proof.
  assert (H : fst (_validateAndPrepareRestRequest Example.example_imports Example.loggedIn
                     Example.UserTypeRef None (Some "u1") None (Some {[ "v" := "0" ]}) (Example.start []))
              = inr (mkPreparedRequest "/rest/sys/user/u1" ∅
                       (<["v" := "69"]> {[ "accessToken" := "t0ken" ]}) Example.UserModel))
    by (vm_compute; reflexivity).
  split; [exact H |].
  exact (proj2 (prepared_headers_version _ _ _ _ _ _ _ _ H)).
Defined.

(** C5.  Once the type model is resolved and verified and the provider has
    answered, preparation merges the provider's headers with the caller's
    extra headers, the extra headers winning on a shared key; it raises
    [NotAuthenticatedError] exactly when the merged set is empty, and
    otherwise returns the merged set stamped with [v]; in either case it
    issues no request. *)
Theorem prepare_authentication_gate {W} (imports : Imports W) (this : EntityRestClient W)
    (typeRef : TypeRef) (listId elementId : option Id)
    (queryParameters extraHeaders : option Params) (s : State W)
    (tm : TypeModel) (w1 w2 : W) (auth : Params) :
  resolveTypeReference imports typeRef (world s) = (inr tm, w1) ->
  _verifyType imports tm = None ->
  _authHeadersProvider this w1 = (inr auth, w2) ->
  let merged := merged_headers auth extraHeaders in
  let out := _validateAndPrepareRestRequest imports this typeRef listId elementId
               queryParameters extraHeaders s in
  (forall k, merged !! k = match default ∅ extraHeaders !! k with
                           | Some v => Some v
                           | None => auth !! k
                           end) /\
  ((exists msg, fst out = inl (NotAuthenticatedError msg)) <-> merged = ∅) /\
  (merged <> ∅ ->
   exists p, fst out = inr p /\ prepared_headers p = <["v" := version tm]> merged) /\
  requests (trace (snd out)) = requests (trace s).
Proof.
  intros Hres Hver Hauth merged out.
  assert (Hout : out = (if has_no_keys merged
       then inl (NotAuthenticatedError "user must be authenticated for entity requests")
       else inr (mkPreparedRequest (spec_path typeRef listId elementId)
                                   (default ∅ queryParameters)
                                   (<["v" := version tm]> merged) tm),
       mkState w2 (trace s ++ [EvResolveTypeReference typeRef; EvAuthHeaders])))
    by (eapply prepare_eq; eassumption).
  split; [| split; [| split]].
  - intros k. unfold merged, merged_headers. rewrite lookup_union.
    destruct (default ∅ extraHeaders !! k); destruct (auth !! k); reflexivity.
  - rewrite Hout. simpl. split.
    + intros [msg H]. apply has_no_keys_spec.
      destruct (has_no_keys merged); [reflexivity | discriminate H].
    + intros H. apply has_no_keys_spec in H. rewrite H. eauto.
  - intros H. apply has_no_keys_false in H. rewrite Hout, H. simpl. eauto.
  - eapply prepare_no_request. apply surjective_pairing.
Qed.

Lemma prepare_authentication_gate_witness :
  (exists msg,
     fst (_validateAndPrepareRestRequest Example.example_imports Example.loggedOut
            Example.MailTypeRef (Some "inbox") None None None (Example.start []))
     = inl (NotAuthenticatedError msg))
  <-> merged_headers ∅ None = ∅.
Proof.
  exact (proj1 (proj2
    (prepare_authentication_gate Example.example_imports Example.loggedOut
       Example.MailTypeRef (Some "inbox") None None None (Example.start [])
       (tm := Example.MailModel) (w1 := []) (w2 := []) (auth := ∅)
       eq_refl eq_refl eq_refl))).
Defined.

(** ** Shape checks *)

Lemma TypeKind_eqb_eq (a b : TypeKind) : TypeKind_eqb a b = true <-> a = b.
Proof.
  destruct a as [| | x], b as [| | y]; simpl; split; intros H;
    try reflexivity; try discriminate H.
  - apply String.eqb_eq in H. now subst.
  - inversion H. apply String.eqb_refl.
Qed.

Lemma TypeKind_eqb_neq (a b : TypeKind) : TypeKind_eqb a b = false <-> a <> b.
Proof.
  rewrite <- TypeKind_eqb_eq. destruct (TypeKind_eqb a b); split; congruence.
Qed.

Section ShapeChecks.
Context {W : Type}.
Variable imports : Imports W.
Variable this : EntityRestClient W.

(** The type model of a prepared request is the one the registry resolved
    at the start of the preparation. *)
Lemma prepare_typeModel typeRef listId elementId queryParameters extraHeaders s p s' tm :
  _validateAndPrepareRestRequest imports this typeRef listId elementId queryParameters extraHeaders s
    = (inr p, s') ->
  fst (resolveTypeReference imports typeRef (world s)) = inr tm ->
  prepared_typeModel p = tm.
Proof.
  intros E Hres.
  destruct (prepare_inv _ _ _ _ _ _ _ _ E) as (tm' & w1 & auth & w2 & Hres' & _ & _ & _ & -> & _).
  rewrite Hres' in Hres. simpl in *. congruence.
Qed.

Lemma check_listId_eq (typeModel : TypeModel) (listId : option Id) (s : State W) :
  check_listId typeModel listId s
  = (if TypeKind_eqb (typeModel_type typeModel) ListElement
     then (if truthy listId then inr tt else inl (Error "List id must be defined for LETs"))
     else (if truthy listId then inl (Error "List id must not be defined for ETs") else inr tt),
     s).
Proof.
  unfold check_listId.
  destruct (TypeKind_eqb (typeModel_type typeModel) ListElement), (truthy listId); reflexivity.
Qed.

Lemma check_listId_mismatch tm listId (s : State W) :
  mismatch tm listId -> exists msg, check_listId tm listId s = (inl (Error msg), s).
Proof.
  intros [[Hk Hl] | [Hk Hl]]; rewrite check_listId_eq, Hl.
  - apply TypeKind_eqb_eq in Hk. rewrite Hk. eauto.
  - apply TypeKind_eqb_neq in Hk. rewrite Hk. eauto.
Qed.

(** A computation that stops at the shape check: it fails, with the usage
    error if preparation went through, and has emitted only what the
    preparation emits. *)
Lemma stops_at_check {A} typeRef listId extraHeaders (k : PreparedRequest -> Prog (State W) A) tm s :
  fst (resolveTypeReference imports typeRef (world s)) = inr tm ->
  mismatch tm listId ->
  let prep := _validateAndPrepareRestRequest imports this typeRef listId None None extraHeaders in
  let out := bind prep (fun p => bind (check_listId (prepared_typeModel p) listId) (fun _ => k p)) s in
  (exists e, fst out = inl e) /\
  (exists evs, trace (snd out) = trace s ++ evs /\ Forall quiet evs) /\
  (forall p, fst (prep s) = inr p -> exists msg, fst out = inl (Error msg)) /\
  (forall e, fst (prep s) = inl e -> fst out = inl e).
Proof.
  intros Hres Hmis prep out. subst out prep. unfold bind.
  destruct (_validateAndPrepareRestRequest imports this typeRef listId None None extraHeaders s)
    as [[e | p] s1] eqn:E.
  - simpl. split; [eauto |]. split; [eapply prepare_quiet; exact E |].
    split; [intros p H; discriminate H | intros e' H; injection H as ->; reflexivity].
  - rewrite (prepare_typeModel _ _ _ _ _ _ E Hres).
    destruct (check_listId_mismatch s1 Hmis) as [msg ->]. simpl.
    split; [eauto |]. split; [eapply prepare_quiet; exact E |].
    split; [eauto | intros e' H; discriminate H].
Qed.

End ShapeChecks.

(** C7 (as amended).  A [loadRange] call on a type whose resolved type model
    is not of [ListElement] shape fails and issues no request; the failure is
    the usage error "only ListElement types are permitted" whenever request
    preparation succeeds (otherwise it is the error of the preparation). *)
Theorem loadRange_requires_ListElement {W} (imports : Imports W) (this : EntityRestClient W)
    (typeRef : TypeRef) (listId start : Id) (count : Z) (reverse : bool)
    (s : State W) (tm : TypeModel) :
  fst (resolveTypeReference imports typeRef (world s)) = inr tm ->
  typeModel_type tm <> ListElement ->
  let out := loadRange imports this typeRef listId start count reverse s in
  (exists e, fst out = inl e) /\
  requests (trace (snd out)) = requests (trace s) /\
  (forall p,
     fst (_validateAndPrepareRestRequest imports this typeRef (Some listId) None
            (Some (rangeRequestParams start count reverse)) None s) = inr p ->
     fst out = inl (Error "only ListElement types are permitted")) /\
  (forall e,
     fst (_validateAndPrepareRestRequest imports this typeRef (Some listId) None
            (Some (rangeRequestParams start count reverse)) None s) = inl e ->
     fst out = inl e).
Proof.
  intros Hres Hk out. subst out. unfold loadRange, bind.
  destruct (_validateAndPrepareRestRequest imports this typeRef (Some listId) None
              (Some (rangeRequestParams start count reverse)) None s) as [[e | p] s1] eqn:E.
  - simpl. split; [eauto |]. split; [eapply prepare_no_request; exact E |].
    split; [intros p H; discriminate H | intros e' H; injection H as ->; reflexivity].
  - assert (Htm : prepared_typeModel p = tm)
      by (eapply prepare_typeModel; [exact E | exact Hres]).
    rewrite Htm. apply TypeKind_eqb_neq in Hk. rewrite Hk. simpl.
    split; [eauto |]. split; [eapply prepare_no_request; exact E |].
    split; [reflexivity | intros e' H; discriminate H].
Qed.

Lemma loadRange_requires_ListElement_witness :
  fst (loadRange Example.example_imports Example.loggedIn Example.UserTypeRef
         "users" "" 10 false (Example.start [inr "[m1]"]))
  = inl (Error "only ListElement types are permitted").
Proof.
  refine (proj1 (proj2 (proj2
    (loadRange_requires_ListElement Example.example_imports Example.loggedIn
       Example.UserTypeRef "users" "" 10 false (Example.start [inr "[m1]"])
       (tm := Example.UserModel) eq_refl _))) _ _).
  - discriminate.
  - vm_compute. reflexivity.
Defined.

(** Without authentication headers the call on an [Element] type fails with
    [NotAuthenticatedError], which is not a usage error. *)
Lemma loadRange_counterexample :
  fst (resolveTypeReference Example.example_imports Example.UserTypeRef []) = inr Example.UserModel /\
  typeModel_type Example.UserModel <> ListElement /\
  fst (loadRange Example.example_imports Example.loggedOut Example.UserTypeRef
         "users" "" 10 false (Example.start []))
  = inl (NotAuthenticatedError "user must be authenticated for entity requests") /\
  ~ (exists msg,
       fst (loadRange Example.example_imports Example.loggedOut Example.UserTypeRef
              "users" "" 10 false (Example.start [])) = inl (Error msg)).
Proof.
  split; [reflexivity |]. split; [discriminate |]. split; [vm_compute; reflexivity |].
  intros [msg H]. vm_compute in H. discriminate H.
Qed.

(** C6 (as amended).  [setup], and [setupMultiple] on a non-empty list, fail
    before any encryption step and before any request when the resolved type
    model is of [ListElement] shape and the list id is null or empty, and when
    it is of another shape and the list id is not empty; the failure is the
    usage error whenever request preparation succeeds (otherwise it is the
    error of the preparation). *)
Theorem setup_rejects_mismatch {W} (imports : Imports W) (this : EntityRestClient W)
    (listId : option Id) (instance : Entity) (rest : list Entity)
    (extraHeaders : option Params) (s : State W) (tm : TypeModel) :
  fst (resolveTypeReference imports (_type instance) (world s)) = inr tm ->
  mismatch tm listId ->
  let single := setup imports this listId instance extraHeaders s in
  let multiple := setupMultiple imports this listId (instance :: rest) s in
  fails_fast s single /\
  fails_fast s multiple /\
  (forall p,
     fst (_validateAndPrepareRestRequest imports this (_type instance) listId None None
            extraHeaders s) = inr p ->
     exists msg, fst single = inl (Error msg)) /\
  (forall p,
     fst (_validateAndPrepareRestRequest imports this (_type instance) listId None None
            None s) = inr p ->
     exists msg, fst multiple = inl (Error msg)) /\
  (forall e,
     fst (_validateAndPrepareRestRequest imports this (_type instance) listId None None
            extraHeaders s) = inl e ->
     fst single = inl e) /\
  (forall e,
     fst (_validateAndPrepareRestRequest imports this (_type instance) listId None None
            None s) = inl e ->
     fst multiple = inl e).
Proof.
  intros Hres Hmis single multiple.
  pose proof (stops_at_check imports this (_type instance) extraHeaders
                (fun p => bind (encrypt_new this (prepared_typeModel p) instance) (fun encryptedEntity =>
                   bind (restClient_request this
                           (mkRequest (prepared_path p) POST (prepared_queryParams p) (prepared_headers p)
                              (Some (JSON_stringify imports encryptedEntity)) (Some Json)))
                        (fun persistencePostReturn =>
                           bind (of_result (JSON_parse imports persistencePostReturn))
                                (fun parsed => of_result (getProp "generatedId" parsed)))))
                s Hres Hmis) as (F1 & Q1 & U1 & P1).
  pose proof (stops_at_check imports this (_type instance) None
                (fun p => with_locals (mkLocals [] [])
                   (bind (promiseMap (splitInChunks (POST_MULTIPLE_LIMIT imports) (instance :: rest))
                            (setupMultiple_chunk imports this listId p))
                      (fun idChunks => bind get_locals (fun l =>
                         if negb (Nat.eqb (length (errors l)) 0)
                         then throw (SetupMultipleError "Setup multiple entities failed"
                                       (errors l) (failedInstances l))
                         else ret (flat idChunks)))))
                s Hres Hmis) as (F2 & Q2 & U2 & P2).
  split; [split; assumption |]. split; [split; assumption |].
  split; [assumption |]. split; [assumption |]. split; assumption.
Qed.

Lemma setup_rejects_mismatch_witness :
  exists msg,
    fst (setup Example.example_imports Example.loggedIn None (Example.mail "m1" "hello") None
           (Example.start [inr "{generatedId:a}"])) = inl (Error msg).
Proof.
  refine (proj1 (proj2 (proj2
    (@setup_rejects_mismatch _ Example.example_imports Example.loggedIn None
       (Example.mail "m1" "hello") [] None (Example.start [inr "{generatedId:a}"])
       Example.MailModel eq_refl (or_introl (conj eq_refl eq_refl))))) _ _).
  vm_compute. reflexivity.
Defined.

(** Without authentication headers [setup] on a [ListElement] type with a
    null list id fails with [NotAuthenticatedError], not with a usage error;
    and [setup] on an [Element] type with the empty string as list id does
    not fail at all: it posts the instance. *)
Lemma setup_rejects_mismatch_counterexample :
  (typeModel_type Example.MailModel = ListElement /\
   fst (setup Example.example_imports Example.loggedOut None (Example.mail "m1" "hello") None
          (Example.start []))
   = inl (NotAuthenticatedError "user must be authenticated for entity requests")) /\
  (typeModel_type Example.UserModel = Element /\
   let out := setup Example.example_imports Example.loggedIn (Some "") (Example.user "u1" "hello") None
                (Example.start [inr "{generatedId:a}"]) in
   fst out = inr (VString "a") /\
   length (requests (trace (snd out))) = 1).
Proof.
  split; (split; [reflexivity |]).
  - vm_compute. reflexivity.
  - split; vm_compute; reflexivity.
Qed.

(** ** Session keys *)

(** C10.  In [update] the session key of the instance is resolved with no
    recovery: when [resolveSessionKey] raises an error (in particular
    [SessionKeyNotFoundError]), [update] raises that error and issues no
    request, hence no PUT; whereas the resolution used by the load path turns
    [SessionKeyNotFoundError] into a null key. *)
Theorem update_propagates_session_key_error {W} (imports : Imports W) (this : EntityRestClient W)
    (instance : Entity) (s s1 : State W) (listId : option Id) (elementId : Id)
    (p : PreparedRequest) (e : Exn) (w2 : W) :
  truthy_id (_id instance) = true ->
  expandId (_id instance) = inr (listId, elementId) ->
  _validateAndPrepareRestRequest imports this (_type instance) listId (Some elementId) None None s
    = (inr p, s1) ->
  resolveSessionKey (_crypto this) (prepared_typeModel p) (Instance instance) (world s1)
    = (inl e, w2) ->
  let out := update imports this instance s in
  fst out = inl e /\
  requests (trace (snd out)) = requests (trace s) /\
  (instanceof_SessionKeyNotFoundError e = true ->
   fst (resolveSessionKey_or_null this (prepared_typeModel p) (Instance instance) s1) = inr None).
Proof.
  intros Hid Hex Hprep Hsk out. subst out.
  unfold update, bind, of_result. rewrite Hid. cbn [negb]. rewrite Hex, Hprep.
  rewrite perform_eq, Hsk. cbn [fst snd trace].
  split; [reflexivity |]. split.
  - rewrite requests_app. simpl. rewrite app_nil_r.
    eapply prepare_no_request; exact Hprep.
  - intros Hc. unfold resolveSessionKey_or_null, catch_ofClass, try_catch.
    rewrite perform_eq, Hsk. cbn [fst snd]. rewrite Hc. reflexivity.
Qed.

Lemma update_propagates_session_key_error_witness :
  fst (update Example.example_imports Example.loggedIn (Example.mail "m1" "locked")
         (Example.start [inr "{}"]))
  = inl (SessionKeyNotFoundError "no session key").
Proof.
  refine (proj1
    (@update_propagates_session_key_error _ Example.example_imports Example.loggedIn
       (Example.mail "m1" "locked") (Example.start [inr "{}"]) _
       (Some "inbox") "m1" _ _ [inr "{}"]
       eq_refl eq_refl _ _)).
  - vm_compute. reflexivity.
  - vm_compute. reflexivity.
Defined.

(** C4.  In [load], when [resolveSessionKey] raises [SessionKeyNotFoundError]
    the error is logged and not propagated, the session key is null, and
    [load] returns the entity that the instance mapper builds without a key,
    after the migrations of the decrypted instance; with a mapper that
    degrades on a null key this entity carries the error markers, and [load]
    does not raise.  Every other error of [resolveSessionKey] is raised to the
    caller. *)
Theorem load_session_key_not_found {W} (imports : Imports W) (this : EntityRestClient W)
    (typeRef : TypeRef) (id : IdValue) (queryParameters extraHeaders : option Params)
    (s s1 : State W) (listId : option Id) (elementId : Id) (p : PreparedRequest)
    (json : string) (entity migratedEntity : Value) (e : Exn) (w2 w3 w4 : W) :
  expandId (Some id) = inr (listId, elementId) ->
  _validateAndPrepareRestRequest imports this typeRef listId (Some elementId)
    queryParameters extraHeaders s = (inr p, s1) ->
  let get := mkRequest (prepared_path p) GET (prepared_queryParams p) (prepared_headers p)
               None (Some Json) in
  let typeModel := prepared_typeModel p in
  request (_restClient this) get (world s1) = (inr json, w2) ->
  JSON_parse imports json = inr entity ->
  applyMigrations (_crypto this) typeRef entity w2 = (inr migratedEntity, w3) ->
  resolveSessionKey (_crypto this) typeModel (Literal migratedEntity) w3 = (inl e, w4) ->
  let out := load imports this typeRef id queryParameters extraHeaders s in
  (instanceof_SessionKeyNotFoundError e = false -> fst out = inl e) /\
  (instanceof_SessionKeyNotFoundError e = true ->
   forall (degraded result : Entity) (w5 w6 : W),
     decryptAndMapToInstance (_instanceMapper this) typeModel migratedEntity None w4
       = (inr degraded, w5) ->
     applyMigrationsForInstance (_crypto this) degraded w5 = (inr result, w6) ->
     out = (inr result,
            mkState w6 (trace s1 ++
              [EvRequest get;
               EvApplyMigrations typeRef entity;
               EvResolveSessionKey typeModel (Literal migratedEntity);
               EvConsoleLog "could not resolve session key" e;
               EvDecryptAndMapToInstance typeModel migratedEntity None;
               EvApplyMigrationsForInstance degraded]))) /\
  (instanceof_SessionKeyNotFoundError e = true ->
   degrades_on_null_key (_instanceMapper this) ->
   migrations_keep_errors (_crypto this) ->
   exists result,
     fst out = inr result /\ _errors result <> None /\
     In (EvConsoleLog "could not resolve session key" e) (trace (snd out))).
Proof.
  intros Hex Hprep get typeModel Hreq Hparse Hmig Hsk out.
  assert (Hrun : instanceof_SessionKeyNotFoundError e = true ->
   forall (degraded result : Entity) (w5 w6 : W),
     decryptAndMapToInstance (_instanceMapper this) typeModel migratedEntity None w4
       = (inr degraded, w5) ->
     applyMigrationsForInstance (_crypto this) degraded w5 = (inr result, w6) ->
     out = (inr result,
            mkState w6 (trace s1 ++
              [EvRequest get;
               EvApplyMigrations typeRef entity;
               EvResolveSessionKey typeModel (Literal migratedEntity);
               EvConsoleLog "could not resolve session key" e;
               EvDecryptAndMapToInstance typeModel migratedEntity None;
               EvApplyMigrationsForInstance degraded]))).
  { intros Hc degraded result w5 w6 Hdec Hpost. subst out.
    unfold load, bind, of_result. rewrite Hex, Hprep.
    unfold restClient_request. rewrite perform_eq. fold get. rewrite Hreq. cbn [fst snd].
    rewrite Hparse. rewrite perform_eq. cbn [fst snd world trace]. rewrite Hmig. cbn [fst snd].
    unfold resolveSessionKey_or_null, catch_ofClass, try_catch, console_log, bind.
    rewrite perform_eq. cbn [fst snd world trace]. fold typeModel. rewrite Hsk. cbn [fst snd].
    rewrite Hc.
    rewrite perform_eq. cbn [fst snd world trace ret].
    rewrite perform_eq. cbn [fst snd world trace]. rewrite Hdec. cbn [fst snd].
    rewrite perform_eq. cbn [fst snd world trace]. rewrite Hpost. cbn [fst snd].
    rewrite <- !app_assoc. reflexivity. }
  split; [| split; [exact Hrun |]].
  - intros Hc. subst out.
    unfold load, bind, of_result. rewrite Hex, Hprep.
    unfold restClient_request. rewrite perform_eq. fold get. rewrite Hreq. cbn [fst snd].
    rewrite Hparse. rewrite perform_eq. cbn [fst snd world trace]. rewrite Hmig. cbn [fst snd].
    unfold resolveSessionKey_or_null, catch_ofClass, try_catch.
    rewrite perform_eq. cbn [fst snd world trace]. fold typeModel. rewrite Hsk. cbn [fst snd].
    rewrite Hc. reflexivity.
  - intros Hc Hmapper Hpost.
    destruct (Hmapper typeModel migratedEntity w4) as (degraded & w5 & Hdec & Herr).
    destruct (Hpost degraded w5) as (result & w6 & Hres & Hkeep).
    rewrite (Hrun Hc degraded result w5 w6 Hdec Hres). cbn [fst snd trace].
    exists result. split; [reflexivity |]. split; [congruence |].
    apply in_or_app. right. simpl. tauto.
Qed.

Lemma load_session_key_not_found_witness :
  exists result,
    fst (load Example.example_imports Example.loggedIn Example.MailTypeRef
           (IdTuple "inbox" "m1") None None (Example.start [inr "locked"])) = inr result
    /\ _errors result <> None
    /\ In (EvConsoleLog "could not resolve session key" (SessionKeyNotFoundError "no session key"))
          (trace (snd (load Example.example_imports Example.loggedIn Example.MailTypeRef
                         (IdTuple "inbox" "m1") None None (Example.start [inr "locked"])))).
Proof.
  refine (proj2 (proj2
    (@load_session_key_not_found _ Example.example_imports Example.loggedIn Example.MailTypeRef
       (IdTuple "inbox" "m1") None None (Example.start [inr "locked"]) _
       (Some "inbox") "m1" _ "locked" (VString "locked") (VString "locked")
       (SessionKeyNotFoundError "no session key") [] [] []
       eq_refl _ _ eq_refl eq_refl _)) eq_refl _ _).
  - vm_compute. reflexivity.
  - vm_compute. reflexivity.
  - vm_compute. reflexivity.
  - intros tm raw w. eexists _, _. split; [reflexivity | discriminate].
  - intros d w. eexists _, _. split; reflexivity.
Defined.

(** ** Chunks *)

Lemma ceil_div_zero (k : nat) : 0 < k -> ceil_div 0 k = 0.
Proof. intros Hk. unfold ceil_div. apply Nat.div_small. lia. Qed.

Lemma ceil_div_step (n k : nat) : 0 < k -> 0 < n -> ceil_div n k = S (ceil_div (n - k) k).
Proof.
  intros Hk Hn. unfold ceil_div.
  destruct (le_lt_dec n k) as [Hle | Hlt].
  - replace (n - k) with 0 by lia. simpl.
    rewrite (Nat.div_small (k - 1) k) by lia.
    replace (n + (k - 1)) with ((n - 1) + 1 * k) by lia.
    rewrite Nat.div_add by lia. rewrite Nat.div_small by lia. reflexivity.
  - replace (n + (k - 1)) with ((n - k + (k - 1)) + 1 * k) by lia.
    rewrite Nat.div_add by lia. lia.
Qed.

(** [ceil_div n k] is the least number of chunks of size [k] that hold [n]
    elements. *)
Lemma ceil_div_bounds (n k : nat) : 0 < k -> n <= ceil_div n k * k < n + k.
Proof.
  intros Hk. unfold ceil_div.
  pose proof (Nat.div_mod_eq (n + (k - 1)) k) as Hd.
  pose proof (Nat.mod_upper_bound (n + (k - 1)) k ltac:(lia)) as Hm.
  nia.
Qed.

Section Chunks.
Context {A : Type}.

Lemma splitInChunks_from_concat (fuel k : nat) (l : list A) :
  0 < k -> length l <= fuel -> concat (splitInChunks_from fuel k l) = l.
Proof.
  intros Hk. revert l. induction fuel as [| fuel IH]; intros l Hl.
  - destruct l; [reflexivity | simpl in Hl; lia].
  - destruct l as [| x l]; [reflexivity |].
    change (take k (x :: l) ++ concat (splitInChunks_from fuel k (drop k (x :: l))) = x :: l).
    rewrite IH.
    + apply take_drop.
    + rewrite length_drop. simpl in *. lia.
Qed.

Lemma splitInChunks_from_length (fuel k : nat) (l : list A) :
  0 < k -> length l <= fuel -> length (splitInChunks_from fuel k l) = ceil_div (length l) k.
Proof.
  intros Hk. revert l. induction fuel as [| fuel IH]; intros l Hl.
  - destruct l; [| simpl in Hl; lia]. simpl. now rewrite ceil_div_zero.
  - destruct l as [| x l]; [simpl; now rewrite ceil_div_zero |].
    change (S (length (splitInChunks_from fuel k (drop k (x :: l)))) = ceil_div (length (x :: l)) k).
    rewrite IH.
    + rewrite length_drop. rewrite (ceil_div_step (n := length (x :: l))); [reflexivity | lia |].
      simpl. lia.
    + rewrite length_drop. simpl in *. lia.
Qed.

Lemma splitInChunks_from_bounded (fuel k : nat) (l : list A) :
  0 < k -> Forall (fun c => 0 < length c <= k) (splitInChunks_from fuel k l).
Proof.
  intros Hk. revert l. induction fuel as [| fuel IH]; intros l.
  - destruct l; constructor.
  - destruct l as [| x l]; [constructor |].
    change (Forall (fun c => 0 < length c <= k)
              (take k (x :: l) :: splitInChunks_from fuel k (drop k (x :: l)))).
    constructor; [| apply IH].
    rewrite length_take. simpl. lia.
Qed.

(** The chunks partition the input in input order, there are
    [ceil (n / k)] of them, none is empty and none is longer than [k]. *)
Lemma splitInChunks_spec (k : nat) (l : list A) :
  0 < k ->
  concat (splitInChunks k l) = l /\
  length (splitInChunks k l) = ceil_div (length l) k /\
  Forall (fun c => 0 < length c <= k) (splitInChunks k l).
Proof.
  intros Hk. unfold splitInChunks.
  destruct (Nat.ltb_spec k 1) as [H | H]; [lia |].
  split; [| split].
  - now apply splitInChunks_from_concat.
  - now apply splitInChunks_from_length.
  - now apply splitInChunks_from_bounded.
Qed.
End Chunks.



(** A fulfilled [promiseMap] has one result per element, in input order, and
    each result was produced by the mapper on its element. *)
Lemma promiseMap_inv {S X Y} (f : X -> Prog S Y) (l : list X) (s : S) (ys : list Y) (s' : S) :
  promiseMap l f s = (inr ys, s') ->
  Forall2 (fun x y => exists sa sb, f x sa = (inr y, sb)) l ys.
Proof.
  revert s ys. induction l as [| x rest IH]; intros s ys H; simpl in H.
  - inversion H. constructor.
  - unfold bind in H. destruct (f x s) as [[e | y] s1] eqn:E; [discriminate H |].
    destruct (promiseMap rest f s1) as [[e | ys'] s2] eqn:E'; [discriminate H |].
    inversion H; subst. constructor; [eauto |]. eapply IH; eauto.
Qed.

(** ** Bulk loading *)

Lemma emits_promiseMap_parsed {S B} (tr : S -> list Event) (Q : Event -> Prop)
    (iterable : Value) (f : Value -> Prog S B) :
  (forall a, emits_on tr Q (f a)) -> emits_on tr Q (promiseMap_parsed iterable f).
Proof.
  intros Hf. destruct iterable; simpl; try apply emits_throw. now apply emits_promiseMap.
Qed.

(** Only an array is mapped. *)
Lemma promiseMap_parsed_inv {S B} (iterable : Value) (f : Value -> Prog S B) s ys s' :
  promiseMap_parsed iterable f s = (inr ys, s') ->
  exists items, iterable = VArray items /\ promiseMap items f s = (inr ys, s').
Proof.
  destruct iterable; simpl; try discriminate. eauto.
Qed.

Section BulkLoad.
Context {W : Type}.
Variable imports : Imports W.
Variable this : EntityRestClient W.

Lemma resolveSessionKey_or_null_emits (Q : Event -> Prop) model instance :
  (forall ev, is_request ev = false -> Q ev) ->
  emits_on (@trace W) Q (resolveSessionKey_or_null this model instance).
Proof.
  intros HQ. unfold resolveSessionKey_or_null, console_log.
  apply emits_catch_ofClass; [apply emits_perform; now apply HQ |].
  intros e. apply emits_bind; [apply emits_perform; now apply HQ |].
  intros _. apply emits_ret.
Qed.

Lemma decode_instance_emits (Q : Event -> Prop) model instance :
  (forall ev, is_request ev = false -> Q ev) ->
  emits_on (@trace W) Q (decode_instance this model instance).
Proof.
  intros HQ. unfold decode_instance.
  apply emits_bind; [now apply resolveSessionKey_or_null_emits |]. intros sk.
  apply emits_bind; [apply emits_perform; now apply HQ |]. intros d.
  apply emits_perform; now apply HQ.
Qed.

Lemma handleLoadMultipleResult_emits (Q : Event -> Prop) typeRef loadedEntities :
  (forall ev, is_request ev = false -> Q ev) ->
  emits_on (@trace W) Q (_handleLoadMultipleResult imports this typeRef loadedEntities).
Proof.
  intros HQ. unfold _handleLoadMultipleResult.
  apply emits_bind; [apply emits_perform; now apply HQ |]. intros model.
  apply emits_bind.
  - destruct (isSameTypeRef typeRef PushIdentifierTypeRef); [| apply emits_ret].
    apply emits_bind; [| intros; apply emits_ret].
    apply emits_promiseMap_parsed. intros x. apply emits_perform; now apply HQ.
  - intros _. apply emits_promiseMap_parsed. intros x. now apply decode_instance_emits.
Qed.

(** A decoded batch was an array and has one entity per wire instance, in
    the order of the array; decoding issues no request. *)
Lemma handleLoadMultipleResult_inv typeRef loadedEntities s entities s' :
  _handleLoadMultipleResult imports this typeRef loadedEntities s = (inr entities, s') ->
  (exists items, loadedEntities = VArray items /\
                 Forall2 (decoded imports this typeRef) items entities) /\
  requests (trace s') = requests (trace s).
Proof.
  intros H. split.
  - unfold _handleLoadMultipleResult in H. unfold bind at 1 in H.
    rewrite perform_eq in H.
    destruct (resolveTypeReference imports typeRef (world s)) as [[e | model] w1] eqn:Hres;
      cbn [fst snd] in H; [discriminate H |].
    unfold bind at 1 in H.
    match type of H with
    | match ?x with _ => _ end = _ => destruct x as [[e | u] s2]
    end; [discriminate H |].
    apply promiseMap_parsed_inv in H. destruct H as (items & -> & H).
    exists items. split; [reflexivity |].
    apply promiseMap_inv in H.
    eapply Forall2_impl; [exact H |].
    intros x y (sa & sb & Hd). exists (world s), model, sa, sb.
    split; [now rewrite Hres | exact Hd].
  - eapply emits_no_request; [| exact H].
    apply handleLoadMultipleResult_emits. now intros ev.
Qed.



End BulkLoad.




(** ** Bulk creation *)

Section BulkCreate.
Context {W : Type}.
Variable imports : Imports W.
Variable this : EntityRestClient W.

Lemma absorb_nothing (l : Locals) : absorb l (mkChunkOutcome [] [] []) = l.
Proof. destruct l. unfold absorb. simpl. now rewrite !app_nil_r. Qed.

Lemma absorb_join (l : Locals) (a b : ChunkOutcome) :
  absorb (absorb l a) b = absorb l (join_outcomes a b).
Proof. unfold absorb, join_outcomes. simpl. now rewrite !app_assoc. Qed.

(** One retry, with its own [catch]. *)
Lemma retry_handler listId (instance : Entity) (l : Locals) (s : State W) :
  try_catch (lift (setup imports this listId instance None))
            (fun e => bind (modify_locals (record_failure e [instance]))
                           (fun _ => ret VUndefined)) (l, s)
  = match setup imports this listId instance None s with
    | (inr id, s1) => (inr id, (l, s1))
    | (inl e, s1) => (inr VUndefined, (record_failure e [instance] l, s1))
    end.
Proof.
  unfold try_catch. rewrite lift_eq.
  destruct (setup imports this listId instance None s) as [[e | id] s1]; reflexivity.
Qed.

(** The per-instance retries: the captured lists grow by the failures, the
    mapped array holds the ids of the successes and [undefined] for the
    failures. *)
Lemma fallback_retries listId (instanceChunk : list Entity) (l : Locals) (s : State W) :
  exists returnedIds,
    promiseMap instanceChunk (fun instance =>
      try_catch (lift (setup imports this listId instance None))
                (fun e => bind (modify_locals (record_failure e [instance]))
                               (fun _ => ret VUndefined))) (l, s)
    = (inr returnedIds,
       (absorb l (fst (spec_retry_each imports this listId instanceChunk s)),
        snd (spec_retry_each imports this listId instanceChunk s))) /\
    List.filter Boolean returnedIds
    = generated_ids (fst (spec_retry_each imports this listId instanceChunk s)).
Proof.
  revert l s. induction instanceChunk as [| instance rest IH]; intros l s.
  - exists []. simpl. rewrite absorb_nothing. split; reflexivity.
  - cbn [promiseMap spec_retry_each]. unfold bind at 1. rewrite retry_handler.
    destruct (setup imports this listId instance None s) as [[e | id] s1] eqn:E.
    + destruct (IH (record_failure e [instance] l) s1) as (ids & Hrun & Hids).
      unfold bind at 1. rewrite Hrun.
      destruct (spec_retry_each imports this listId rest s1) as [o s2]. cbn [fst snd] in *.
      exists (VUndefined :: ids). split.
      * unfold ret. f_equal. f_equal. unfold absorb, record_failure, join_outcomes. simpl.
        now rewrite <- !app_assoc.
      * simpl. exact Hids.
    + destruct (IH l s1) as (ids & Hrun & Hids).
      unfold bind at 1. rewrite Hrun.
      destruct (spec_retry_each imports this listId rest s1) as [o s2]. cbn [fst snd] in *.
      exists (id :: ids). split.
      * reflexivity.
      * simpl. rewrite Hids. now destruct (Boolean id).
Qed.

(** The chunk handler never rejects; it records what the policy says. *)
Lemma chunk_handler listId p (instanceChunk : list Entity) (l : Locals) (s : State W) :
  setupMultiple_chunk imports this listId p instanceChunk (l, s)
  = (inr (generated_ids (fst (spec_chunk imports this listId p instanceChunk s))),
     (absorb l (fst (spec_chunk imports this listId p instanceChunk s)),
      snd (spec_chunk imports this listId p instanceChunk s))).
Proof.
  unfold setupMultiple_chunk, spec_chunk, try_catch. rewrite lift_eq.
  destruct (setupMultiple_post imports this p instanceChunk s) as [[e | ids] s1]; cbn [fst snd].
  - destruct (instanceof_PayloadTooLargeError e).
    + unfold setupMultiple_fallback.
      destruct (fallback_retries listId instanceChunk l s1) as (returnedIds & Hrun & Hids).
      unfold bind at 1. rewrite Hrun. unfold ret. now rewrite Hids.
    + reflexivity.
  - unfold absorb. simpl. rewrite !app_nil_r. now destruct l.
Qed.

Lemma chunks_loop listId p (instanceChunks : list (list Entity)) (l : Locals) (s : State W) :
  exists idChunks,
    promiseMap instanceChunks (setupMultiple_chunk imports this listId p) (l, s)
    = (inr idChunks,
       (absorb l (fst (spec_chunks imports this listId p instanceChunks s)),
        snd (spec_chunks imports this listId p instanceChunks s))) /\
    flat idChunks = generated_ids (fst (spec_chunks imports this listId p instanceChunks s)).
Proof.
  revert l s. induction instanceChunks as [| c rest IH]; intros l s.
  - exists []. simpl. rewrite absorb_nothing. split; reflexivity.
  - simpl. unfold bind at 1. rewrite chunk_handler.
    destruct (spec_chunk imports this listId p c s) as [o1 s1]. cbn [fst snd].
    destruct (IH (absorb l o1) s1) as (idChunks & Hrun & Hids).
    unfold bind at 1. rewrite Hrun.
    destruct (spec_chunks imports this listId p rest s1) as [o2 s2]. cbn [fst snd] in *.
    exists (generated_ids o1 :: idChunks). split.
    + unfold ret. now rewrite absorb_join.
    + unfold flat in *. simpl. now rewrite Hids.
Qed.

End BulkCreate.



(** Without any failure the ids come back in chunk order. *)
Example setupMultiple_two_chunks :
  fst (setupMultiple Example.example_imports Example.loggedIn (Some "inbox")
         [Example.mail "1" "x"; Example.mail "2" "y"; Example.mail "3" "z"]
         (Example.start [inr "[{generatedId:a},{generatedId:b}]"; inr "[{generatedId:c}]"]))
  = inr [VString "a"; VString "b"; VString "c"].
Proof. vm_compute. reflexivity. Qed.

(** A failure that is not "payload too large" fails its whole chunk, and the
    ids of the other chunk are not returned. *)
Example setupMultiple_chunk_failure :
  fst (setupMultiple Example.example_imports Example.loggedIn (Some "inbox")
         [Example.mail "1" "x"; Example.mail "2" "y"; Example.mail "3" "z"]
         (Example.start [inl (RestError 500 "internal"); inr "[{generatedId:c}]"]))
  = inl (SetupMultipleError "Setup multiple entities failed"
           [RestError 500 "internal"] [Example.mail "1" "x"; Example.mail "2" "y"]).
Proof. vm_compute. reflexivity. Qed.

(** ** The version header on the wire *)

Section Stamping.
Context {W : Type}.
Variable imports : Imports W.
Variable this : EntityRestClient W.

Lemma not_request_stamped (ev : Event) : is_request ev = false -> stamped imports ev.
Proof. intros H r ->. discriminate H. Qed.

Lemma prepare_versioned typeRef listId elementId queryParameters extraHeaders s p s' :
  _validateAndPrepareRestRequest imports this typeRef listId elementId queryParameters extraHeaders s
    = (inr p, s') ->
  versioned imports (prepared_headers p) (prepared_typeModel p).
Proof.
  intros E.
  destruct (prepare_inv _ _ _ _ _ _ _ _ E) as (tm & w1 & auth & w2 & Hres & _ & _ & _ & -> & _).
  split; [apply lookup_insert_eq |].
  exists typeRef, (world s). simpl. now rewrite Hres.
Qed.

Lemma prepare_stamped typeRef listId elementId queryParameters extraHeaders :
  emits_on (@trace W) (stamped imports)
    (_validateAndPrepareRestRequest imports this typeRef listId elementId queryParameters extraHeaders).
Proof.
  eapply emits_weaken; [| apply prepare_quiet].
  intros ev [H _]. now apply not_request_stamped.
Qed.

(** A request built from a prepared request, whatever its method, query and
    body. *)
Lemma request_stamped p path method query body media :
  versioned imports (prepared_headers p) (prepared_typeModel p) ->
  emits_on (@trace W) (stamped imports)
    (restClient_request this (mkRequest path method query (prepared_headers p) body media)).
Proof.
  intros Hp. apply emits_perform. intros r Hr. inversion Hr; subst. simpl. eauto.
Qed.

Ltac silent_step :=
  first
    [ apply emits_ret
    | apply emits_throw
    | apply emits_of_result
    | apply emits_perform; apply not_request_stamped; reflexivity
    | apply resolveSessionKey_or_null_emits; exact not_request_stamped
    | apply handleLoadMultipleResult_emits; exact not_request_stamped ].

Lemma load_stamped typeRef id queryParameters extraHeaders :
  emits_on (@trace W) (stamped imports) (load imports this typeRef id queryParameters extraHeaders).
Proof.
  unfold load. apply emits_bind; [silent_step |]. intros [listId elementId].
  eapply emits_bind_post; [apply prepare_stamped | apply prepare_versioned |]. intros p Hp.
  apply emits_bind; [now apply request_stamped |]. intros json.
  apply emits_bind; [silent_step |]. intros entity.
  apply emits_bind; [silent_step |]. intros migratedEntity.
  apply emits_bind; [silent_step |]. intros sessionKey.
  apply emits_bind; [silent_step |]. intros instance. silent_step.
Qed.

Lemma loadRange_stamped typeRef listId start count reverse :
  emits_on (@trace W) (stamped imports) (loadRange imports this typeRef listId start count reverse).
Proof.
  unfold loadRange.
  eapply emits_bind_post; [apply prepare_stamped | apply prepare_versioned |]. intros p Hp.
  destruct (negb _); [silent_step |].
  apply emits_bind; [now apply request_stamped |]. intros json.
  apply emits_bind; [silent_step |]. intros parsed. silent_step.
Qed.

Lemma loadMultiple_stamped typeRef listId elementIds :
  emits_on (@trace W) (stamped imports) (loadMultiple imports this typeRef listId elementIds).
Proof.
  unfold loadMultiple.
  eapply emits_bind_post; [apply prepare_stamped | apply prepare_versioned |]. intros p Hp.
  apply emits_bind; [| intros; silent_step].
  apply emits_promiseMap. intros idChunk.
  apply emits_bind; [unfold loadMultiple_request; now apply request_stamped |]. intros json.
  apply emits_bind; [silent_step |]. intros parsed. silent_step.
Qed.

Lemma encrypt_new_stamped typeModel instance :
  emits_on (@trace W) (stamped imports) (encrypt_new this typeModel instance).
Proof.
  unfold encrypt_new. apply emits_bind; [silent_step |]. intros sk. silent_step.
Qed.

Lemma setup_stamped listId instance extraHeaders :
  emits_on (@trace W) (stamped imports) (setup imports this listId instance extraHeaders).
Proof.
  unfold setup.
  eapply emits_bind_post; [apply prepare_stamped | apply prepare_versioned |]. intros p Hp.
  apply emits_bind.
  { unfold check_listId. destruct (TypeKind_eqb _ _); [destruct (negb _) | destruct (truthy _)];
      silent_step. }
  intros _. apply emits_bind; [apply encrypt_new_stamped |]. intros encryptedEntity.
  apply emits_bind; [now apply request_stamped |]. intros persistencePostReturn.
  apply emits_bind; [silent_step |]. intros parsed. silent_step.
Qed.

Lemma setupMultiple_stamped listId instances :
  emits_on (@trace W) (stamped imports) (setupMultiple imports this listId instances).
Proof.
  unfold setupMultiple. destruct (Nat.ltb _ 1); [silent_step |].
  destruct (head instances) as [first |]; [| silent_step].
  eapply emits_bind_post; [apply prepare_stamped | apply prepare_versioned |]. intros p Hp.
  apply emits_bind.
  { unfold check_listId. destruct (TypeKind_eqb _ _); [destruct (negb _) | destruct (truthy _)];
      silent_step. }
  intros _. apply emits_with_locals.
  apply emits_bind.
  - apply emits_promiseMap. intros instanceChunk. unfold setupMultiple_chunk.
    apply emits_try_catch.
    + apply emits_lift. unfold setupMultiple_post.
      apply emits_bind; [apply emits_promiseMap; intros x; apply encrypt_new_stamped |].
      intros encryptedEntities.
      apply emits_bind; [now apply request_stamped |]. intros persistencePostReturn.
      apply emits_bind; [silent_step |]. intros postReturn. silent_step.
    + intros e. destruct (instanceof_PayloadTooLargeError e).
      * unfold setupMultiple_fallback. apply emits_bind; [| intros; apply emits_ret].
        apply emits_promiseMap. intros instance. apply emits_try_catch.
        -- apply emits_lift. apply setup_stamped.
        -- intros e'. apply emits_bind; [apply emits_modify_locals |]. intros _. apply emits_ret.
      * apply emits_bind; [apply emits_modify_locals |]. intros _. apply emits_ret.
  - intros idChunks. apply emits_bind; [apply emits_get_locals |]. intros l.
    destruct (negb _); [apply emits_throw | apply emits_ret].
Qed.

Lemma update_stamped instance :
  emits_on (@trace W) (stamped imports) (update imports this instance).
Proof.
  unfold update. destruct (negb _); [silent_step |].
  apply emits_bind; [silent_step |]. intros [listId elementId].
  eapply emits_bind_post; [apply prepare_stamped | apply prepare_versioned |]. intros p Hp.
  apply emits_bind; [silent_step |]. intros sessionKey.
  apply emits_bind; [silent_step |]. intros encryptedEntity.
  apply emits_bind; [now apply request_stamped |]. intros _. silent_step.
Qed.

Lemma erase_stamped instance :
  emits_on (@trace W) (stamped imports) (erase imports this instance).
Proof.
  unfold erase.
  apply emits_bind; [silent_step |]. intros [listId elementId].
  eapply emits_bind_post; [apply prepare_stamped | apply prepare_versioned |]. intros p Hp.
  apply emits_bind; [now apply request_stamped |]. intros _. silent_step.
Qed.

End Stamping.

(** Every request of every operation carries the version header. *)
Corollary operations_stamp_version {W} (imports : Imports W) (this : EntityRestClient W) :
  (forall typeRef id qp eh, emits_on (@trace W) (stamped imports) (load imports this typeRef id qp eh)) /\
  (forall typeRef listId start count reverse,
     emits_on (@trace W) (stamped imports) (loadRange imports this typeRef listId start count reverse)) /\
  (forall typeRef listId ids,
     emits_on (@trace W) (stamped imports) (loadMultiple imports this typeRef listId ids)) /\
  (forall listId instance eh,
     emits_on (@trace W) (stamped imports) (setup imports this listId instance eh)) /\
  (forall listId instances,
     emits_on (@trace W) (stamped imports) (setupMultiple imports this listId instances)) /\
  (forall instance, emits_on (@trace W) (stamped imports) (update imports this instance)) /\
  (forall instance, emits_on (@trace W) (stamped imports) (erase imports this instance)).
Proof.
  repeat split; intros.
  - apply load_stamped.
  - apply loadRange_stamped.
  - apply loadMultiple_stamped.
  - apply setup_stamped.
  - apply setupMultiple_stamped.
  - apply update_stamped.
  - apply erase_stamped.
Qed.

(** ** What the policy records *)

Section Recorded.
Context {W : Type}.
Variable imports : Imports W.
Variable this : EntityRestClient W.

(** The retries record one error per failed instance, and the failed
    instances are instances of the chunk, in the order of the chunk. *)
Lemma spec_retry_each_recorded listId (instanceChunk : list Entity) (s : State W) :
  let o := fst (spec_retry_each imports this listId instanceChunk s) in
  length (recorded_errors o) = length (recorded_failed o) /\
  sublist (recorded_failed o) instanceChunk.
Proof.
  revert s. induction instanceChunk as [| instance rest IH]; intros s.
  - simpl. split; [reflexivity | constructor].
  - cbn [spec_retry_each].
    destruct (setup imports this listId instance None s) as [[e | id] s1];
      specialize (IH s1);
      destruct (spec_retry_each imports this listId rest s1) as [o s2];
      cbn [fst snd] in *; destruct IH as [IH1 IH2]; simpl; split.
    + now rewrite IH1.
    + now apply sublist_skip.
    + exact IH1.
    + now apply sublist_cons.
Qed.

(** A chunk records no more errors than failed instances, and only its own
    instances. *)
Lemma spec_chunk_recorded listId p (instanceChunk : list Entity) (s : State W) :
  let o := fst (spec_chunk imports this listId p instanceChunk s) in
  length (recorded_errors o) <= length (recorded_failed o) + 1 /\
  (recorded_errors o = [] -> recorded_failed o = []) /\
  sublist (recorded_failed o) instanceChunk.
Proof.
  unfold spec_chunk.
  destruct (setupMultiple_post imports this p instanceChunk s) as [[e | ids] s1].
  - destruct (instanceof_PayloadTooLargeError e).
    + destruct (spec_retry_each_recorded listId instanceChunk s1) as [H1 H2].
      split; [lia |]. split; [| exact H2].
      intros H. rewrite H in H1. simpl in H1.
      destruct (recorded_failed _); [reflexivity | discriminate H1].
    + simpl. split; [lia |]. split; [discriminate | reflexivity].
  - simpl. split; [lia |]. split; [reflexivity | apply sublist_nil_l].
Qed.

(** Over all chunks: the failed instances are instances of the call, in
    input order, and none is recorded unless an error is. *)
Lemma spec_chunks_recorded listId p (instanceChunks : list (list Entity)) (s : State W) :
  let o := fst (spec_chunks imports this listId p instanceChunks s) in
  (recorded_errors o = [] -> recorded_failed o = []) /\
  sublist (recorded_failed o) (concat instanceChunks).
Proof.
  revert s. induction instanceChunks as [| c rest IH]; intros s.
  - simpl. split; [reflexivity | constructor].
  - cbn [spec_chunks].
    destruct (spec_chunk_recorded listId p c s) as (_ & H1 & H2).
    destruct (spec_chunk imports this listId p c s) as [o1 s1]. cbn [fst] in *.
    specialize (IH s1).
    destruct (spec_chunks imports this listId p rest s1) as [o2 s2]. cbn [fst] in *.
    destruct IH as [IH1 IH2]. simpl. split.
    + intros H. apply app_eq_nil in H. destruct H as [Ha Hb].
      now rewrite (H1 Ha), (IH1 Hb).
    + now apply sublist_app.
Qed.

End Recorded.

(** ** The operations at work *)

Example load_mail :
  fst (load Example.example_imports Example.loggedIn Example.MailTypeRef
         (IdTuple "inbox" "m1") None None (Example.start [inr "m1"]))
  = inr (mkEntity Example.MailTypeRef None None (VString "m1")).
Proof. vm_compute. reflexivity. Qed.

Example load_mail_request :
  requests (trace (snd (load Example.example_imports Example.loggedIn Example.MailTypeRef
                          (IdTuple "inbox" "m1") None None (Example.start [inr "m1"]))))
  = [mkRequest "/rest/tutanota/mail/inbox/m1" GET ∅
       (<["v" := "46"]> {[ "accessToken" := "t0ken" ]}) None (Some Json)].
Proof. vm_compute. reflexivity. Qed.

Example loadRange_mails :
  fst (loadRange Example.example_imports Example.loggedIn Example.MailTypeRef
         "inbox" "m0" 2 true (Example.start [inr "[m1,m2]"]))
  = inr [mkEntity Example.MailTypeRef None None (VString "m1");
         mkEntity Example.MailTypeRef None None (VString "m2")].
Proof. vm_compute. reflexivity. Qed.

Example loadMultiple_requests :
  requests (trace (snd (loadMultiple Example.example_imports Example.loggedIn Example.MailTypeRef
                          (Some "inbox") ["a"; "b"; "c"]
                          (Example.start [inr "[m1,m2]"; inr "[m1]"]))))
  = [mkRequest "/rest/tutanota/mail/inbox" GET {[ "ids" := "a,b" ]}
       (<["v" := "46"]> {[ "accessToken" := "t0ken" ]}) None (Some Json);
     mkRequest "/rest/tutanota/mail/inbox" GET {[ "ids" := "c" ]}
       (<["v" := "46"]> {[ "accessToken" := "t0ken" ]}) None (Some Json)].
Proof. vm_compute. reflexivity. Qed.

Example loadMultiple_degrades_one :
  fst (loadMultiple Example.example_imports Example.loggedIn Example.MailTypeRef
         (Some "inbox") ["a"] (Example.start [inr "[locked]"]))
  = inr [mkEntity Example.MailTypeRef None
           (Some (VObject [("_sessionKey", VString "missing")])) (VString "locked")].
Proof. vm_compute. reflexivity. Qed.

Example setup_user :
  fst (setup Example.example_imports Example.loggedIn None (Example.user "u1" "hello") None
         (Example.start [inr "{generatedId:a}"]))
  = inr (VString "a").
Proof. vm_compute. reflexivity. Qed.

Example update_mail_request :
  requests (trace (snd (update Example.example_imports Example.loggedIn (Example.mail "m1" "hello")
                          (Example.start [inr "{}"]))))
  = [mkRequest "/rest/tutanota/mail/inbox/m1" PUT ∅
       (<["v" := "46"]> {[ "accessToken" := "t0ken" ]}) (Some "hello") (Some Json)].
Proof. vm_compute. reflexivity. Qed.

Example erase_user_request :
  requests (trace (snd (erase Example.example_imports Example.loggedIn (Example.user "u1" "hello")
                          (Example.start [inr "{}"]))))
  = [mkRequest "/rest/sys/user/u1" DELETE ∅
       (<["v" := "69"]> {[ "accessToken" := "t0ken" ]}) None None].
Proof. vm_compute. reflexivity. Qed.

Example extra_headers_win :
  merged_headers {[ "accessToken" := "t0ken"; "cv" := "3" ]} (Some {[ "cv" := "4" ]})
  = ({[ "accessToken" := "t0ken"; "cv" := "4" ]} : Params).
Proof. vm_compute. reflexivity. Qed.

(** * Further properties *)

(** ** Taking a run apart *)

Lemma bind_inv {S A B} (p : Prog S A) (k : A -> Prog S B) s b s' :
  bind p k s = (inr b, s') -> exists a s1, p s = (inr a, s1) /\ k a s1 = (inr b, s').
Proof.
  unfold bind. destruct (p s) as [[e | a] s1]; [discriminate |]. eauto.
Qed.

Lemma perform_inv {W A} (ev : Event) (f : W -> (Exn + A) * W) (s : State W) a s' :
  perform ev f s = (inr a, s') ->
  exists w', f (world s) = (inr a, w') /\ s' = mkState w' (trace s ++ [ev]).
Proof.
  rewrite perform_eq. destruct (f (world s)) as [r w'] eqn:E. simpl.
  intros H. inversion H; subst. eauto.
Qed.

Lemma of_result_inv {S A} (x : Exn + A) (s : S) a s' :
  of_result x s = (inr a, s') -> x = inr a /\ s' = s.
Proof. unfold of_result. intros H. inversion H; subst. auto. Qed.

(** The session key of the load path: resolved, or "not found", logged and
    null. *)
Lemma resolveSessionKey_or_null_inv {W} (this : EntityRestClient W) model instance
    (s : State W) sk s' :
  resolveSessionKey_or_null this model instance s = (inr sk, s') ->
  (exists w', resolveSessionKey (_crypto this) model instance (world s) = (inr sk, w') /\
              s' = mkState w' (trace s ++ [EvResolveSessionKey model instance])) \/
  (exists e w', resolveSessionKey (_crypto this) model instance (world s) = (inl e, w') /\
                instanceof_SessionKeyNotFoundError e = true /\ sk = None /\
                s' = mkState w' (trace s ++ [EvResolveSessionKey model instance;
                                             EvConsoleLog "could not resolve session key" e])).
Proof.
  unfold resolveSessionKey_or_null, catch_ofClass, try_catch. rewrite perform_eq.
  destruct (resolveSessionKey (_crypto this) model instance (world s)) as [[e | k] w'] eqn:E;
    cbn [fst snd].
  - destruct (instanceof_SessionKeyNotFoundError e) eqn:Hc; [| discriminate].
    unfold console_log, bind. rewrite perform_eq. cbn [fst snd world trace ret].
    intros H. inversion H; subst. right. exists e, w'.
    repeat split; try assumption. now rewrite <- app_assoc.
  - intros H. inversion H; subst. left. eauto.
Qed.

(** ** Methods *)

Section Methods.
Context {W : Type}.
Variable imports : Imports W.
Variable this : EntityRestClient W.

(** Preparation calls the registry for the type reference, then the
    provider. *)
Lemma prepare_calls typeRef listId elementId queryParameters extraHeaders :
  emits_on (@trace W) (fun ev => ev = EvResolveTypeReference typeRef \/ ev = EvAuthHeaders)
    (_validateAndPrepareRestRequest imports this typeRef listId elementId queryParameters extraHeaders).
Proof.
  unfold _validateAndPrepareRestRequest.
  apply emits_bind; [apply emits_perform; now left |]. intros tm.
  destruct (_verifyType imports tm); [apply emits_throw |].
  apply emits_bind; [apply emits_perform; now right |]. intros auth.
  destruct (has_no_keys _); [apply emits_throw | apply emits_ret].
Qed.

Lemma prepare_emits (Q : Event -> Prop) typeRef listId elementId queryParameters extraHeaders :
  (forall t, Q (EvResolveTypeReference t)) -> Q EvAuthHeaders ->
  emits_on (@trace W) Q
    (_validateAndPrepareRestRequest imports this typeRef listId elementId queryParameters extraHeaders).
Proof.
  intros H1 H2. eapply emits_weaken; [| apply prepare_calls].
  intros ev [-> | ->]; auto.
Qed.

Lemma check_listId_emits (Q : Event -> Prop) typeModel listId :
  emits_on (@trace W) Q (check_listId typeModel listId).
Proof.
  unfold check_listId.
  destruct (TypeKind_eqb _ _); [destruct (negb _) | destruct (truthy _)];
    first [apply emits_throw | apply emits_ret].
Qed.

Lemma read_event_not_request ev : is_request ev = false -> is_encryption ev = false -> read_event ev.
Proof. destruct ev; simpl; intros H1 H2; try exact I; discriminate. Qed.

Lemma handleLoadMultipleResult_reads typeRef loadedEntities :
  emits_on (@trace W) read_event (_handleLoadMultipleResult imports this typeRef loadedEntities).
Proof.
  unfold _handleLoadMultipleResult.
  apply emits_bind; [apply emits_perform; exact I |]. intros model.
  apply emits_bind.
  - destruct (isSameTypeRef typeRef PushIdentifierTypeRef); [| apply emits_ret].
    apply emits_bind; [| intros; apply emits_ret].
    apply emits_promiseMap_parsed. intros x. apply emits_perform. exact I.
  - intros _. apply emits_promiseMap_parsed. intros x. unfold decode_instance.
    apply emits_bind.
    { unfold resolveSessionKey_or_null, console_log.
      apply emits_catch_ofClass; [apply emits_perform; exact I |].
      intros e. apply emits_bind; [apply emits_perform; exact I |].
      intros _. apply emits_ret. }
    intros sk. apply emits_bind; [apply emits_perform; exact I |]. intros d.
    apply emits_perform. exact I.
Qed.

Lemma load_reads typeRef id queryParameters extraHeaders :
  emits_on (@trace W) read_event (load imports this typeRef id queryParameters extraHeaders).
Proof.
  unfold load. apply emits_bind; [apply emits_of_result |]. intros [listId elementId].
  apply emits_bind; [apply prepare_emits; [intros t |]; exact I |]. intros p.
  apply emits_bind; [apply emits_perform; simpl; auto |]. intros json.
  apply emits_bind; [apply emits_of_result |]. intros entity.
  apply emits_bind; [apply emits_perform; exact I |]. intros migratedEntity.
  apply emits_bind.
  { unfold resolveSessionKey_or_null, console_log.
    apply emits_catch_ofClass; [apply emits_perform; exact I |].
    intros e. apply emits_bind; [apply emits_perform; exact I |].
    intros _. apply emits_ret. }
  intros sessionKey. apply emits_bind; [apply emits_perform; exact I |]. intros instance.
  apply emits_perform. exact I.
Qed.

Lemma loadRange_reads typeRef listId start count reverse :
  emits_on (@trace W) read_event (loadRange imports this typeRef listId start count reverse).
Proof.
  unfold loadRange.
  apply emits_bind; [apply prepare_emits; [intros t |]; exact I |]. intros p.
  destruct (negb _); [apply emits_throw |].
  apply emits_bind; [apply emits_perform; simpl; auto |]. intros json.
  apply emits_bind; [apply emits_of_result |]. intros parsed.
  apply handleLoadMultipleResult_reads.
Qed.

Lemma loadMultiple_reads typeRef listId elementIds :
  emits_on (@trace W) read_event (loadMultiple imports this typeRef listId elementIds).
Proof.
  unfold loadMultiple.
  apply emits_bind; [apply prepare_emits; [intros t |]; exact I |]. intros p.
  apply emits_bind; [| intros; apply emits_ret].
  apply emits_promiseMap. intros idChunk.
  apply emits_bind; [apply emits_perform; simpl; auto |]. intros json.
  apply emits_bind; [apply emits_of_result |]. intros parsed.
  apply handleLoadMultipleResult_reads.
Qed.

Lemma encrypt_new_creates typeModel instance :
  emits_on (@trace W) create_event (encrypt_new this typeModel instance).
Proof.
  unfold encrypt_new. apply emits_bind; [apply emits_perform; exact I |]. intros sk.
  apply emits_perform. exact I.
Qed.

Lemma setup_creates listId instance extraHeaders :
  emits_on (@trace W) create_event (setup imports this listId instance extraHeaders).
Proof.
  unfold setup.
  apply emits_bind; [apply prepare_emits; [intros t |]; exact I |]. intros p.
  apply emits_bind; [apply check_listId_emits |]. intros _.
  apply emits_bind; [apply encrypt_new_creates |]. intros encryptedEntity.
  apply emits_bind; [apply emits_perform; simpl; eauto |]. intros persistencePostReturn.
  apply emits_bind; [apply emits_of_result |]. intros parsed. apply emits_of_result.
Qed.

Lemma setupMultiple_creates listId instances :
  emits_on (@trace W) create_event (setupMultiple imports this listId instances).
Proof.
  unfold setupMultiple. destruct (Nat.ltb _ 1); [apply emits_ret |].
  destruct (head instances) as [first |]; [| apply emits_throw].
  apply emits_bind; [apply prepare_emits; [intros t |]; exact I |]. intros p.
  apply emits_bind; [apply check_listId_emits |]. intros _.
  apply emits_with_locals. apply emits_bind.
  - apply emits_promiseMap. intros instanceChunk. unfold setupMultiple_chunk.
    apply emits_try_catch.
    + apply emits_lift. unfold setupMultiple_post.
      apply emits_bind; [apply emits_promiseMap; intros x; apply encrypt_new_creates |].
      intros encryptedEntities.
      apply emits_bind; [apply emits_perform; simpl; eauto |]. intros persistencePostReturn.
      apply emits_bind; [apply emits_of_result |]. intros postReturn. apply emits_of_result.
    + intros e. destruct (instanceof_PayloadTooLargeError e).
      * unfold setupMultiple_fallback. apply emits_bind; [| intros; apply emits_ret].
        apply emits_promiseMap. intros instance. apply emits_try_catch.
        -- apply emits_lift. apply setup_creates.
        -- intros e'. apply emits_bind; [apply emits_modify_locals |]. intros _. apply emits_ret.
      * apply emits_bind; [apply emits_modify_locals |]. intros _. apply emits_ret.
  - intros idChunks. apply emits_bind; [apply emits_get_locals |]. intros l.
    destruct (negb _); [apply emits_throw | apply emits_ret].
Qed.

Lemma update_updates instance :
  emits_on (@trace W) update_event (update imports this instance).
Proof.
  unfold update. destruct (negb _); [apply emits_throw |].
  apply emits_bind; [apply emits_of_result |]. intros [listId elementId].
  apply emits_bind; [apply prepare_emits; [intros t |]; exact I |]. intros p.
  apply emits_bind; [apply emits_perform; exact I |]. intros sessionKey.
  apply emits_bind; [apply emits_perform; exact I |]. intros encryptedEntity.
  apply emits_bind; [apply emits_perform; simpl; eauto |]. intros _. apply emits_ret.
Qed.

Lemma erase_erases instance :
  emits_on (@trace W) erase_event (erase imports this instance).
Proof.
  unfold erase.
  apply emits_bind; [apply emits_of_result |]. intros [listId elementId].
  apply emits_bind; [apply prepare_emits; [intros t |]; exact I |]. intros p.
  apply emits_bind; [apply emits_perform; simpl; auto |]. intros _. apply emits_ret.
Qed.

End Methods.

Lemma requests_of_events (Q : Event -> Prop) (P : Request -> Prop) (evs : list Event) :
  (forall r, Q (EvRequest r) -> P r) -> Forall Q evs -> Forall P (requests evs).
Proof.
  intros HQ. induction 1 as [| ev evs H _ IH]; [constructor |].
  destruct ev; simpl; try exact IH. constructor; [now apply HQ | exact IH].
Qed.

Lemma every_request_of_emits {W A} (Q : Event -> Prop) (P : Request -> Prop)
    (p : Prog (State W) A) :
  (forall r, Q (EvRequest r) -> P r) -> emits_on (@trace W) Q p -> every_request P p.
Proof.
  intros HQ Hp s r s' H. destruct (Hp _ _ _ H) as (evs & E & F).
  exists (requests evs). split.
  - rewrite E. apply requests_app.
  - eapply requests_of_events; eauto.
Qed.

Lemma stamped_versioned {W} (imports : Imports W) (r : Request) :
  stamped imports (EvRequest r) -> versioned_request imports r.
Proof. intros H. now apply H. Qed.

(** X1.  Whatever the outcome, every request that [load], [loadRange],
    [loadMultiple], [setup], [setupMultiple], [update] or [erase] issues
    carries the header [v], set to the version of a type model that the
    registry resolved. *)
Theorem every_request_is_versioned {W} (imports : Imports W) (this : EntityRestClient W) :
  (forall typeRef id qp eh,
     every_request (versioned_request imports) (load imports this typeRef id qp eh)) /\
  (forall typeRef listId start count reverse,
     every_request (versioned_request imports)
       (loadRange imports this typeRef listId start count reverse)) /\
  (forall typeRef listId ids,
     every_request (versioned_request imports) (loadMultiple imports this typeRef listId ids)) /\
  (forall listId instance eh,
     every_request (versioned_request imports) (setup imports this listId instance eh)) /\
  (forall listId instances,
     every_request (versioned_request imports) (setupMultiple imports this listId instances)) /\
  (forall instance, every_request (versioned_request imports) (update imports this instance)) /\
  (forall instance, every_request (versioned_request imports) (erase imports this instance)).
Proof.
  repeat split; intros;
    (eapply every_request_of_emits; [apply stamped_versioned |]).
  - apply load_stamped.
  - apply loadRange_stamped.
  - apply loadMultiple_stamped.
  - apply setup_stamped.
  - apply setupMultiple_stamped.
  - apply update_stamped.
  - apply erase_stamped.
Qed.

(** X2.  The three read operations only read: every request they issue is a
    GET without a body that expects JSON, and they never mint a session key
    nor encrypt an instance. *)
Theorem reads_only_get {W} (imports : Imports W) (this : EntityRestClient W) :
  (forall typeRef id qp eh, emits_on (@trace W) read_event (load imports this typeRef id qp eh)) /\
  (forall typeRef listId start count reverse,
     emits_on (@trace W) read_event (loadRange imports this typeRef listId start count reverse)) /\
  (forall typeRef listId ids,
     emits_on (@trace W) read_event (loadMultiple imports this typeRef listId ids)).
Proof.
  repeat split; intros.
  - apply load_reads.
  - apply loadRange_reads.
  - apply loadMultiple_reads.
Qed.

(** X3.  The write operations keep to their verb.  [setup] and
    [setupMultiple] issue only POSTs with a body and never resolve a session
    key, decrypt or migrate; [update] issues only PUTs with a body and encrypts
    with the resolved key, never minting a new owner key; [erase] issues only
    DELETEs without a body and calls neither the crypto facade nor the
    instance mapper. *)
Theorem writes_keep_their_verb {W} (imports : Imports W) (this : EntityRestClient W) :
  (forall listId instance eh,
     emits_on (@trace W) create_event (setup imports this listId instance eh)) /\
  (forall listId instances,
     emits_on (@trace W) create_event (setupMultiple imports this listId instances)) /\
  (forall instance, emits_on (@trace W) update_event (update imports this instance)) /\
  (forall instance, emits_on (@trace W) erase_event (erase imports this instance)).
Proof.
  repeat split; intros.
  - apply setup_creates.
  - apply setupMultiple_creates.
  - apply update_updates.
  - apply erase_erases.
Qed.

(** ** Without authentication *)

Section Offline.
Context {W : Type}.
Variable imports : Imports W.
Variable this : EntityRestClient W.

(** With nothing from the provider and nothing from the caller, preparation
    does not succeed. *)
Lemma prepare_unauthenticated typeRef listId elementId queryParameters extraHeaders s p s' :
  unauthenticated this ->
  default ∅ extraHeaders = ∅ ->
  _validateAndPrepareRestRequest imports this typeRef listId elementId queryParameters extraHeaders s
    = (inr p, s') ->
  False.
Proof.
  intros Hun Hextra E.
  destruct (prepare_inv _ _ _ _ _ _ _ _ E) as (tm & w1 & auth & w2 & _ & _ & Hauth & Hne & _).
  specialize (Hun w1). rewrite Hauth in Hun. simpl in Hun. inversion Hun; subst.
  apply Hne. unfold merged_headers. rewrite Hextra. apply (left_id_L ∅ (∪)).
Qed.

Lemma stops_at_prepare {A} typeRef listId elementId queryParameters extraHeaders
    (k : PreparedRequest -> Prog (State W) A) s :
  unauthenticated this ->
  default ∅ extraHeaders = ∅ ->
  fails_fast s
    (bind (_validateAndPrepareRestRequest imports this typeRef listId elementId
             queryParameters extraHeaders) k s).
Proof.
  intros Hun Hextra. unfold bind.
  destruct (_validateAndPrepareRestRequest imports this typeRef listId elementId
              queryParameters extraHeaders s) as [[e | p] s1] eqn:E.
  - split; [simpl; eauto |]. simpl. eapply prepare_quiet; exact E.
  - exfalso. eapply prepare_unauthenticated; eauto.
Qed.

Lemma fails_fast_here {A} (s : State W) (e : Exn) : fails_fast s (@inl Exn A e, s).
Proof.
  split; [simpl; eauto |]. exists []. simpl. split; [now rewrite app_nil_r | constructor].
Qed.

End Offline.

(** X4.  A client whose provider has no authentication headers is offline:
    without extra headers, every [load], [loadRange], [loadMultiple], [setup],
    [update] and [erase] call, and every [setupMultiple] call with at least
    one instance, fails, and fails before any request and any encryption
    step. *)
Theorem unauthenticated_client_is_offline {W} (imports : Imports W) (this : EntityRestClient W) :
  unauthenticated this ->
  (forall typeRef id qp s, fails_fast s (load imports this typeRef id qp None s)) /\
  (forall typeRef listId start count reverse s,
     fails_fast s (loadRange imports this typeRef listId start count reverse s)) /\
  (forall typeRef listId ids s, fails_fast s (loadMultiple imports this typeRef listId ids s)) /\
  (forall listId instance s, fails_fast s (setup imports this listId instance None s)) /\
  (forall listId first rest s,
     fails_fast s (setupMultiple imports this listId (first :: rest) s)) /\
  (forall instance s, fails_fast s (update imports this instance s)) /\
  (forall instance s, fails_fast s (erase imports this instance s)).
Proof.
  intros Hun. repeat match goal with |- _ /\ _ => split end; intros.
  - unfold load. destruct id; apply (stops_at_prepare imports); auto.
  - apply (stops_at_prepare imports); auto.
  - apply (stops_at_prepare imports); auto.
  - apply (stops_at_prepare imports); auto.
  - apply (stops_at_prepare imports); auto.
  - unfold update. destruct (_id instance) as [[elementId | listId elementId] |]; simpl.
    + destruct (String.eqb elementId ""); simpl; [apply fails_fast_here |].
      apply (stops_at_prepare imports); auto.
    + apply (stops_at_prepare imports); auto.
    + apply fails_fast_here.
  - unfold erase. destruct (_id instance) as [[elementId | listId elementId] |].
    + apply (stops_at_prepare imports); auto.
    + apply (stops_at_prepare imports); auto.
    + apply fails_fast_here.
Qed.

Lemma unauthenticated_client_is_offline_witness :
  fails_fast (Example.start [inr "{}"])
    (erase Example.example_imports Example.loggedOut (Example.user "u1" "hello")
       (Example.start [inr "{}"])).
Proof.
  refine (proj2 (proj2 (proj2 (proj2 (proj2 (proj2
    (@unauthenticated_client_is_offline _ Example.example_imports Example.loggedOut _))))))
    (Example.user "u1" "hello") (Example.start [inr "{}"])).
  intros w. reflexivity.
Defined.

(** ** Counting requests *)

Section Counting.
Context {S : Type} (tr : S -> list Event).

Lemma sends_of_emits {A} (p : Prog S A) : emits_on tr not_request p -> sends_at_most tr 0 p.
Proof.
  intros Hp s r s' H. destruct (Hp _ _ _ H) as (evs & E & F).
  rewrite E, requests_app, (requests_not_request F), app_nil_r. lia.
Qed.

Lemma sends_weaken {A} (n m : nat) (p : Prog S A) :
  n <= m -> sends_at_most tr n p -> sends_at_most tr m p.
Proof. intros Hle Hp s r s' H. specialize (Hp _ _ _ H). lia. Qed.

Lemma sends_ret {A} (a : A) : sends_at_most tr 0 (ret a).
Proof. intros s r s' H. inversion H; subst. lia. Qed.

Lemma sends_throw {A} (e : Exn) : sends_at_most tr 0 (@throw S A e).
Proof. intros s r s' H. inversion H; subst. lia. Qed.

Lemma sends_of_result {A} (x : Exn + A) : sends_at_most tr 0 (of_result x).
Proof. intros s r s' H. inversion H; subst. lia. Qed.

Lemma sends_bind {A B} (n m : nat) (p : Prog S A) (k : A -> Prog S B) :
  sends_at_most tr n p -> (forall a, sends_at_most tr m (k a)) ->
  sends_at_most tr (n + m) (bind p k).
Proof.
  intros Hp Hk s r s' H. unfold bind in H.
  destruct (p s) as [[e | a] s1] eqn:E.
  - inversion H; subst. specialize (Hp _ _ _ E). lia.
  - specialize (Hp _ _ _ E). specialize (Hk a _ _ _ H). lia.
Qed.

Lemma sends_try_catch {A} (n m : nat) (p : Prog S A) (h : Exn -> Prog S A) :
  sends_at_most tr n p -> (forall e, sends_at_most tr m (h e)) ->
  sends_at_most tr (n + m) (try_catch p h).
Proof.
  intros Hp Hh s r s' H. unfold try_catch in H.
  destruct (p s) as [[e | a] s1] eqn:E.
  - specialize (Hp _ _ _ E). specialize (Hh e _ _ _ H). lia.
  - inversion H; subst. specialize (Hp _ _ _ E). lia.
Qed.

Lemma sends_promiseMap {A B} (cost : A -> nat) (l : list A) (f : A -> Prog S B) :
  (forall a, sends_at_most tr (cost a) (f a)) ->
  sends_at_most tr (sum_list_with cost l) (promiseMap l f).
Proof.
  intros Hf. induction l as [| x rest IH]; simpl.
  - apply sends_ret.
  - apply sends_bind; [apply Hf |]. intros y.
    replace (sum_list_with cost rest) with (sum_list_with cost rest + 0) by lia.
    apply sends_bind; [exact IH |]. intros ys. apply sends_ret.
Qed.

End Counting.

Lemma sends_request {W} (this : EntityRestClient W) (r : Request) :
  sends_at_most (@trace W) 1 (restClient_request this r).
Proof.
  intros s x s' H. unfold restClient_request in H. rewrite perform_eq in H.
  inversion H; subst. cbn [trace]. rewrite requests_app, length_app.
  change (requests [EvRequest r]) with [r]. simpl. reflexivity.
Qed.

Lemma sends_lift {L W A} (n : nat) (p : Prog (State W) A) :
  sends_at_most (@trace W) n p -> sends_at_most (@trace_l L W) n (lift p).
Proof.
  intros Hp [l s] r [l' s'] H. rewrite lift_eq in H. inversion H; subst.
  unfold trace_l. simpl. eapply Hp. apply surjective_pairing.
Qed.

Lemma sends_with_locals {L W A} (n : nat) (init : L) (p : Prog (L * State W) A) :
  sends_at_most (@trace_l L W) n p -> sends_at_most (@trace W) n (with_locals init p).
Proof.
  intros Hp s r s' H. unfold with_locals in H.
  destruct (p (init, s)) as [r1 ls] eqn:E. inversion H; subst.
  apply (Hp _ _ _ E).
Qed.

Lemma sends_modify_locals {L W} (f : L -> L) :
  sends_at_most (@trace_l L W) 0 (modify_locals f).
Proof. intros [l s] r [l' s'] H. inversion H; subst. unfold trace_l. simpl. lia. Qed.

Lemma sends_get_locals {L W} : sends_at_most (@trace_l L W) 0 (@get_locals L (State W)).
Proof. intros [l s] r [l' s'] H. inversion H; subst. unfold trace_l. simpl. lia. Qed.

Lemma sum_chunk_costs {A} (chunks : list (list A)) :
  sum_list_with (fun c => 1 + length c) chunks = length chunks + length (concat chunks).
Proof.
  induction chunks as [| c rest IH]; [reflexivity |].
  change (S (length c) + sum_list_with (fun c => 1 + length c) rest
          = S (length rest) + length (c ++ concat rest)).
  rewrite IH, length_app. lia.
Qed.

Lemma sum_unit_costs {A} (l : list A) : sum_list_with (fun _ => 1) l = length l.
Proof.
  induction l as [| x rest IH]; [reflexivity |].
  change (1 + sum_list_with (fun _ => 1) rest = S (length rest)). now rewrite IH.
Qed.

Section RequestBounds.
Context {W : Type}.
Variable imports : Imports W.
Variable this : EntityRestClient W.

Lemma prepare_sends typeRef listId elementId queryParameters extraHeaders :
  sends_at_most (@trace W) 0
    (_validateAndPrepareRestRequest imports this typeRef listId elementId queryParameters extraHeaders).
Proof.
  apply sends_of_emits. eapply emits_weaken; [| apply prepare_quiet]. apply quiet_not_request.
Qed.

Lemma load_sends typeRef id queryParameters extraHeaders :
  sends_at_most (@trace W) 1 (load imports this typeRef id queryParameters extraHeaders).
Proof.
  unfold load. apply (sends_bind (n := 0) (m := 1)); [apply sends_of_result |].
  intros [listId elementId].
  apply (sends_bind (n := 0) (m := 1)); [apply prepare_sends |]. intros p.
  apply (sends_bind (n := 1) (m := 0)); [apply sends_request |]. intros json.
  apply sends_of_emits.
  apply emits_bind; [apply emits_of_result |]. intros entity.
  apply emits_bind; [now apply emits_perform |]. intros migratedEntity.
  apply emits_bind; [apply resolveSessionKey_or_null_emits; now intros ev |]. intros sessionKey.
  apply emits_bind; [now apply emits_perform |]. intros instance. now apply emits_perform.
Qed.

Lemma loadRange_sends typeRef listId start count reverse :
  sends_at_most (@trace W) 1 (loadRange imports this typeRef listId start count reverse).
Proof.
  unfold loadRange.
  apply (sends_bind (n := 0) (m := 1)); [apply prepare_sends |]. intros p.
  destruct (negb _); [eapply sends_weaken; [| apply sends_throw]; lia |].
  apply (sends_bind (n := 1) (m := 0)); [apply sends_request |]. intros json.
  apply sends_of_emits.
  apply emits_bind; [apply emits_of_result |]. intros parsed.
  apply handleLoadMultipleResult_emits. now intros ev.
Qed.

Lemma check_listId_sends typeModel listId :
  sends_at_most (@trace W) 0 (check_listId typeModel listId).
Proof. apply sends_of_emits. apply check_listId_emits. Qed.

Lemma encrypt_new_sends typeModel instance :
  sends_at_most (@trace W) 0 (encrypt_new this typeModel instance).
Proof.
  apply sends_of_emits. unfold encrypt_new.
  apply emits_bind; [now apply emits_perform |]. intros sk. now apply emits_perform.
Qed.

Lemma setup_sends listId instance extraHeaders :
  sends_at_most (@trace W) 1 (setup imports this listId instance extraHeaders).
Proof.
  unfold setup.
  apply (sends_bind (n := 0) (m := 1)); [apply prepare_sends |]. intros p.
  apply (sends_bind (n := 0) (m := 1)); [apply check_listId_sends |]. intros _.
  apply (sends_bind (n := 0) (m := 1)); [apply encrypt_new_sends |]. intros encryptedEntity.
  apply (sends_bind (n := 1) (m := 0)); [apply sends_request |]. intros persistencePostReturn.
  apply (sends_bind (n := 0) (m := 0)); [apply sends_of_result |]. intros parsed.
  apply sends_of_result.
Qed.

Lemma update_sends instance :
  sends_at_most (@trace W) 1 (update imports this instance).
Proof.
  unfold update. destruct (negb _); [eapply sends_weaken; [| apply sends_throw]; lia |].
  apply (sends_bind (n := 0) (m := 1)); [apply sends_of_result |]. intros [listId elementId].
  apply (sends_bind (n := 0) (m := 1)); [apply prepare_sends |]. intros p.
  apply (sends_bind (n := 0) (m := 1)); [apply sends_of_emits; now apply emits_perform |].
  intros sessionKey.
  apply (sends_bind (n := 0) (m := 1)); [apply sends_of_emits; now apply emits_perform |].
  intros encryptedEntity.
  apply (sends_bind (n := 1) (m := 0)); [apply sends_request |]. intros _. apply sends_ret.
Qed.

Lemma erase_sends instance :
  sends_at_most (@trace W) 1 (erase imports this instance).
Proof.
  unfold erase.
  apply (sends_bind (n := 0) (m := 1)); [apply sends_of_result |]. intros [listId elementId].
  apply (sends_bind (n := 0) (m := 1)); [apply prepare_sends |]. intros p.
  apply (sends_bind (n := 1) (m := 0)); [apply sends_request |]. intros _. apply sends_ret.
Qed.

Lemma setupMultiple_post_sends p instanceChunk :
  sends_at_most (@trace W) 1 (setupMultiple_post imports this p instanceChunk).
Proof.
  unfold setupMultiple_post.
  apply (sends_bind (n := 0) (m := 1)).
  { apply sends_of_emits. apply emits_promiseMap. intros x. unfold encrypt_new.
    apply emits_bind; [now apply emits_perform |]. intros sk. now apply emits_perform. }
  intros encryptedEntities.
  apply (sends_bind (n := 1) (m := 0)); [apply sends_request |]. intros persistencePostReturn.
  apply (sends_bind (n := 0) (m := 0)); [apply sends_of_result |]. intros postReturn.
  apply sends_of_result.
Qed.

(** One chunk: the batched POST, and at most one POST per instance on the
    fallback. *)
Lemma setupMultiple_chunk_sends listId p instanceChunk :
  sends_at_most (@trace_l Locals W) (1 + length instanceChunk)
    (setupMultiple_chunk imports this listId p instanceChunk).
Proof.
  unfold setupMultiple_chunk.
  apply sends_try_catch; [apply sends_lift, setupMultiple_post_sends |].
  intros e. destruct (instanceof_PayloadTooLargeError e).
  - unfold setupMultiple_fallback.
    replace (length instanceChunk) with (sum_list_with (fun _ => 1) instanceChunk + 0)
      by (rewrite sum_unit_costs; lia).
    apply sends_bind; [| intros; apply sends_ret].
    apply sends_promiseMap. intros instance.
    apply (sends_try_catch (n := 1) (m := 0)); [apply sends_lift, setup_sends |].
    intros e'. apply (sends_bind (n := 0) (m := 0)); [apply sends_modify_locals |].
    intros _. apply sends_ret.
  - eapply sends_weaken; [| apply (sends_bind (n := 0) (m := 0));
                              [apply sends_modify_locals | intros; apply sends_ret]].
    lia.
Qed.

End RequestBounds.

(** X5.  Whatever the outcome, one call of [load], [loadRange], [setup],
    [update] or [erase] issues at most one request. *)
Theorem single_operations_send_once {W} (imports : Imports W) (this : EntityRestClient W) :
  (forall typeRef id qp eh, sends_at_most (@trace W) 1 (load imports this typeRef id qp eh)) /\
  (forall typeRef listId start count reverse,
     sends_at_most (@trace W) 1 (loadRange imports this typeRef listId start count reverse)) /\
  (forall listId instance eh, sends_at_most (@trace W) 1 (setup imports this listId instance eh)) /\
  (forall instance, sends_at_most (@trace W) 1 (update imports this instance)) /\
  (forall instance, sends_at_most (@trace W) 1 (erase imports this instance)).
Proof.
  repeat split; intros.
  - apply load_sends.
  - apply loadRange_sends.
  - apply setup_sends.
  - apply update_sends.
  - apply erase_sends.
Qed.

(** X6.  With a multiple-create limit [K > 0], a [setupMultiple] call with
    [N] instances issues at most [ceil(N/K) + N] requests, whatever fails: one
    batched POST per chunk and, on the fallback, one POST per instance. *)
Theorem setupMultiple_request_bound {W} (imports : Imports W) (this : EntityRestClient W)
    (listId : option Id) (instances : list Entity) :
  0 < POST_MULTIPLE_LIMIT imports ->
  sends_at_most (@trace W)
    (ceil_div (length instances) (POST_MULTIPLE_LIMIT imports) + length instances)
    (setupMultiple imports this listId instances).
Proof.
  intros HK. unfold setupMultiple.
  destruct (Nat.ltb _ 1); [eapply sends_weaken; [| apply sends_ret]; lia |].
  destruct (head instances) as [first |]; [| eapply sends_weaken; [| apply sends_throw]; lia].
  destruct (splitInChunks_spec instances HK) as (Hcat & Hlen & _).
  rewrite <- Hlen. rewrite <- Hcat at 2. rewrite <- sum_chunk_costs.
  apply (sends_bind (n := 0)); [apply prepare_sends |]. intros p.
  apply (sends_bind (n := 0)); [apply check_listId_sends |]. intros _.
  apply sends_with_locals.
  match goal with
  | |- sends_at_most _ ?n _ => replace n with (n + 0) by lia
  end.
  apply sends_bind.
  - apply sends_promiseMap. intros instanceChunk. apply setupMultiple_chunk_sends.
  - intros idChunks. apply (sends_bind (n := 0) (m := 0)); [apply sends_get_locals |].
    intros l. destruct (negb _); [apply sends_throw | apply sends_ret].
Qed.

Lemma setupMultiple_request_bound_witness :
  sends_at_most (@trace Example.World) (ceil_div 3 2 + 3)
    (setupMultiple Example.example_imports Example.loggedIn (Some "inbox")
       [Example.mail "1" "x"; Example.mail "2" "y"; Example.mail "3" "z"]).
Proof.
  apply (@setupMultiple_request_bound _ Example.example_imports Example.loggedIn (Some "inbox")
           [Example.mail "1" "x"; Example.mail "2" "y"; Example.mail "3" "z"]).
  simpl. lia.
Defined.

(** A run that reaches the bound: both batches are rejected as too large and
    each of the three instances is retried. *)
Example setupMultiple_request_bound_reached :
  length (requests (trace (snd
    (setupMultiple Example.example_imports Example.loggedIn (Some "inbox")
       [Example.mail "1" "x"; Example.mail "2" "y"; Example.mail "3" "z"]
       (Example.start [inl (PayloadTooLargeError "too large");
                       inr "{generatedId:a}"; inr "{generatedId:b}";
                       inl (PayloadTooLargeError "too large");
                       inr "{generatedId:c}"])))))
  = ceil_div 3 2 + 3.
Proof. vm_compute. reflexivity. Qed.

(** ** What the aggregate error holds *)

Section Aggregate.
Context {W : Type}.
Variable imports : Imports W.
Variable this : EntityRestClient W.

(** The run of [setupMultiple] past preparation and the shape check. *)
Lemma setupMultiple_run listId first rest (s s1 : State W) p :
  _validateAndPrepareRestRequest imports this (_type first) listId None None None s = (inr p, s1) ->
  fst (check_listId (prepared_typeModel p) listId s1) = inr tt ->
  setupMultiple imports this listId (first :: rest) s
  = (spec_result (fst (spec_chunks imports this listId p
                         (splitInChunks (POST_MULTIPLE_LIMIT imports) (first :: rest)) s1)),
     snd (spec_chunks imports this listId p
            (splitInChunks (POST_MULTIPLE_LIMIT imports) (first :: rest)) s1)).
Proof.
  intros Hprep Hcheck.
  unfold setupMultiple. cbn [length Nat.ltb Nat.leb head].
  unfold bind at 1. rewrite Hprep.
  unfold bind at 1. rewrite check_listId_eq in *. cbn [fst] in Hcheck. rewrite Hcheck.
  unfold with_locals.
  destruct (chunks_loop imports this listId p
              (splitInChunks (POST_MULTIPLE_LIMIT imports) (first :: rest)) (mkLocals [] []) s1)
    as (idChunks & Hrun & Hids).
  unfold bind at 1. rewrite Hrun.
  unfold bind at 1, get_locals. cbn [fst snd].
  unfold spec_result, absorb. cbn [errors failedInstances app].
  destruct (recorded_errors _) as [| e es]; simpl.
  - unfold ret. now rewrite Hids.
  - reflexivity.
Qed.

(** A chunk that is not empty records at least as many failed instances as
    errors. *)
Lemma spec_chunk_errors_le listId p (instanceChunk : list Entity) (s : State W) :
  0 < length instanceChunk ->
  length (recorded_errors (fst (spec_chunk imports this listId p instanceChunk s)))
  <= length (recorded_failed (fst (spec_chunk imports this listId p instanceChunk s))).
Proof.
  intros Hne. unfold spec_chunk.
  destruct (setupMultiple_post imports this p instanceChunk s) as [[e | ids] s1].
  - destruct (instanceof_PayloadTooLargeError e).
    + destruct (spec_retry_each_recorded imports this listId instanceChunk s1) as [H1 _]. lia.
    + simpl. lia.
  - simpl. lia.
Qed.

Lemma spec_chunks_errors_le listId p (instanceChunks : list (list Entity)) (s : State W) :
  Forall (fun c => 0 < length c) instanceChunks ->
  length (recorded_errors (fst (spec_chunks imports this listId p instanceChunks s)))
  <= length (recorded_failed (fst (spec_chunks imports this listId p instanceChunks s))).
Proof.
  intros Hne. revert s. induction Hne as [| c rest Hc _ IH]; intros s.
  - simpl. lia.
  - cbn [spec_chunks].
    pose proof (@spec_chunk_errors_le listId p c s Hc) as H1.
    destruct (spec_chunk imports this listId p c s) as [o1 s1]. cbn [fst] in *.
    specialize (IH s1).
    destruct (spec_chunks imports this listId p rest s1) as [o2 s2]. cbn [fst] in *.
    simpl. rewrite !length_app. lia.
Qed.

End Aggregate.

(** X7.  With a multiple-create limit [K > 0], when a [setupMultiple] call
    that got past preparation and the shape check fails, its error is a
    [SetupMultipleError] that holds at least one error, no more errors than
    failed instances, and as failed instances only instances of the call, each
    at most once and in the order of the call. *)
Theorem setupMultiple_error_content {W} (imports : Imports W) (this : EntityRestClient W)
    (listId : option Id) (first : Entity) (rest : list Entity)
    (s s1 : State W) (p : PreparedRequest) (e : Exn) :
  0 < POST_MULTIPLE_LIMIT imports ->
  _validateAndPrepareRestRequest imports this (_type first) listId None None None s = (inr p, s1) ->
  fst (check_listId (prepared_typeModel p) listId s1) = inr tt ->
  fst (setupMultiple imports this listId (first :: rest) s) = inl e ->
  exists errs failed,
    e = SetupMultipleError "Setup multiple entities failed" errs failed /\
    errs <> [] /\
    length errs <= length failed /\
    sublist failed (first :: rest).
Proof.
  intros HK Hprep Hcheck He.
  erewrite setupMultiple_run in He; [| exact Hprep | exact Hcheck].
  cbn [fst] in He.
  destruct (splitInChunks_spec (first :: rest) HK) as (Hcat & _ & Hbounded).
  set (chunks := splitInChunks (POST_MULTIPLE_LIMIT imports) (first :: rest)) in *.
  pose proof (spec_chunks_recorded imports this listId p chunks s1) as [_ Hsub].
  assert (Hle : length (recorded_errors (fst (spec_chunks imports this listId p chunks s1)))
                <= length (recorded_failed (fst (spec_chunks imports this listId p chunks s1)))).
  { apply spec_chunks_errors_le. eapply Forall_impl; [exact Hbounded |].
    intros c Hc. simpl in Hc. lia. }
  rewrite Hcat in Hsub.
  unfold spec_result in He.
  destruct (recorded_errors (fst (spec_chunks imports this listId p chunks s1)))
    as [| e1 es] eqn:Herrs; [discriminate He |].
  inversion He; subst.
  exists (e1 :: es), (recorded_failed (fst (spec_chunks imports this listId p chunks s1))).
  split; [reflexivity |]. split; [discriminate |]. split; assumption.
Qed.

Lemma setupMultiple_error_content_witness :
  exists errs failed,
    SetupMultipleError "Setup multiple entities failed"
      [RestError 500 "internal"] [Example.mail "2" "y"]
    = SetupMultipleError "Setup multiple entities failed" errs failed /\
    errs <> [] /\
    length errs <= length failed /\
    sublist failed [Example.mail "1" "x"; Example.mail "2" "y"; Example.mail "3" "z"].
Proof.
  refine (@setupMultiple_error_content _ Example.example_imports Example.loggedIn (Some "inbox")
            (Example.mail "1" "x") [Example.mail "2" "y"; Example.mail "3" "z"]
            (Example.start [inl (PayloadTooLargeError "too large");
                            inr "{generatedId:a}";
                            inl (RestError 500 "internal");
                            inr "[{generatedId:c}]"])
            _ _ _ _ _ _ _).
  - simpl. lia.
  - vm_compute. reflexivity.
  - vm_compute. reflexivity.
  - vm_compute. reflexivity.
Defined.

(** ** Ranges *)

(** X8.  A [loadRange] call that succeeds, with a safe integer as [count],
    was made on a type of [ListElement] shape and has issued exactly one
    request: a GET on the path of the list, with exactly the query parameters
    [start], [count] (in decimal notation) and [reverse] as strings.  The
    transport answered that request, in the world the preparation left; the
    result is what [_handleLoadMultipleResult] returns for the parsed answer,
    run right after the request; and when the parsed answer is an array, the
    result holds the decoding of each instance of the array, in the order of
    the array. *)
Theorem loadRange_result {W} (imports : Imports W) (this : EntityRestClient W)
    (typeRef : TypeRef) (listId start : Id) (count : Z) (reverse : bool)
    (s s' : State W) (result : list Entity) :
  (- 2 ^ 53 < count < 2 ^ 53)%Z ->
  loadRange imports this typeRef listId start count reverse s = (inr result, s') ->
  exists p s1 json w2 parsed,
    let get := mkRequest (spec_path typeRef (Some listId) None) GET
                 {[ "start" := start; "count" := String_of_number count;
                    "reverse" := String_of_boolean reverse ]}
                 (prepared_headers p) None (Some Json) in
    _validateAndPrepareRestRequest imports this typeRef (Some listId) None
      (Some (rangeRequestParams start count reverse)) None s = (inr p, s1) /\
    typeModel_type (prepared_typeModel p) = ListElement /\
    request (_restClient this) get (world s1) = (inr json, w2) /\
    JSON_parse imports json = inr parsed /\
    _handleLoadMultipleResult imports this typeRef parsed
      (mkState w2 (trace s1 ++ [EvRequest get])) = (inr result, s') /\
    requests (trace s') = requests (trace s) ++ [get] /\
    (forall response,
       parsed = VArray response -> Forall2 (decoded imports this typeRef) response result).
Proof.
  intros _ H. unfold loadRange in H.
  apply bind_inv in H. destruct H as (p & s1 & Hprep & H).
  destruct (negb (TypeKind_eqb (typeModel_type (prepared_typeModel p)) ListElement)) eqn:Hk;
    [discriminate H |].
  apply bind_inv in H. destruct H as (json & s2 & Hreq & H).
  apply bind_inv in H. destruct H as (parsed & s3 & Hparse & H).
  apply of_result_inv in Hparse. destruct Hparse as [Hparse ->].
  apply perform_inv in Hreq. destruct Hreq as (w2 & Hreq & ->).
  assert (Hquiet : requests (trace s1) = requests (trace s))
    by (eapply prepare_no_request; exact Hprep).
  destruct (prepare_inv _ _ _ _ _ _ _ _ Hprep) as (tm & w1 & auth & wa & _ & _ & _ & _ & Hp & _).
  assert (Hget : mkRequest (prepared_path p) GET (prepared_queryParams p) (prepared_headers p)
                   None (Some Json)
                 = mkRequest (spec_path typeRef (Some listId) None) GET
                     {[ "start" := start; "count" := String_of_number count;
                        "reverse" := String_of_boolean reverse ]}
                     (prepared_headers p) None (Some Json))
    by (rewrite Hp; reflexivity).
  rewrite Hget in Hreq, H.
  pose proof H as Hinv. apply handleLoadMultipleResult_inv in Hinv.
  destruct Hinv as [(items & Hitems & Hdec) Hreqs].
  exists p, s1, json, w2, parsed. cbv zeta.
  split; [exact Hprep |]. split.
  { apply TypeKind_eqb_eq. now destruct (TypeKind_eqb _ _). }
  split; [exact Hreq |]. split; [exact Hparse |]. split; [exact H |]. split.
  { rewrite Hreqs. cbn [trace]. rewrite requests_app, Hquiet. reflexivity. }
  intros response Hr. rewrite Hr in Hitems. injection Hitems as ->. exact Hdec.
Qed.

Lemma loadRange_result_witness :
  exists p s1 json w2 parsed,
    let get := mkRequest (spec_path Example.MailTypeRef (Some "inbox") None) GET
                 {[ "start" := "m0"; "count" := String_of_number 2;
                    "reverse" := String_of_boolean true ]}
                 (prepared_headers p) None (Some Json) in
    _validateAndPrepareRestRequest Example.example_imports Example.loggedIn
      Example.MailTypeRef (Some "inbox") None
      (Some (rangeRequestParams "m0" 2 true)) None (Example.start [inr "[m1,m2]"])
    = (inr p, s1) /\
    typeModel_type (prepared_typeModel p) = ListElement /\
    request (_restClient Example.loggedIn) get (world s1) = (inr json, w2) /\
    JSON_parse Example.example_imports json = inr parsed /\
    _handleLoadMultipleResult Example.example_imports Example.loggedIn Example.MailTypeRef parsed
      (mkState w2 (trace s1 ++ [EvRequest get]))
    = (inr [mkEntity Example.MailTypeRef None None (VString "m1");
            mkEntity Example.MailTypeRef None None (VString "m2")],
       snd (loadRange Example.example_imports Example.loggedIn Example.MailTypeRef
              "inbox" "m0" 2 true (Example.start [inr "[m1,m2]"]))) /\
    requests (trace (snd (loadRange Example.example_imports Example.loggedIn Example.MailTypeRef
                            "inbox" "m0" 2 true (Example.start [inr "[m1,m2]"]))))
    = requests (trace (Example.start [inr "[m1,m2]"])) ++ [get] /\
    (forall response,
       parsed = VArray response ->
       Forall2 (decoded Example.example_imports Example.loggedIn Example.MailTypeRef) response
         [mkEntity Example.MailTypeRef None None (VString "m1");
          mkEntity Example.MailTypeRef None None (VString "m2")]).
Proof.
  apply (@loadRange_result _ Example.example_imports Example.loggedIn Example.MailTypeRef
           "inbox" "m0" 2 true (Example.start [inr "[m1,m2]"])).
  - lia.
  - vm_compute. reflexivity.
Defined.

(** The answer of the example run is the array of the two instances. *)
Example loadRange_result_run :
  loadRange Example.example_imports Example.loggedIn Example.MailTypeRef
    "inbox" "m0" 2 true (Example.start [inr "[m1,m2]"; inr "[m1]"])
  = (inr [mkEntity Example.MailTypeRef None None (VString "m1");
          mkEntity Example.MailTypeRef None None (VString "m2")],
     mkState [inr "[m1]"]
       [EvResolveTypeReference Example.MailTypeRef;
        EvAuthHeaders;
        EvRequest (mkRequest "/rest/tutanota/mail/inbox" GET
                     {[ "start" := "m0"; "count" := "2"; "reverse" := "true" ]}
                     {[ "v" := "46"; "accessToken" := "t0ken" ]} None (Some Json));
        EvResolveTypeReference Example.MailTypeRef;
        EvResolveSessionKey Example.MailModel (Literal (VString "m1"));
        EvDecryptAndMapToInstance Example.MailModel (VString "m1") (Some [1; 2]%Z);
        EvApplyMigrationsForInstance (mkEntity Example.MailTypeRef None None (VString "m1"));
        EvResolveSessionKey Example.MailModel (Literal (VString "m2"));
        EvDecryptAndMapToInstance Example.MailModel (VString "m2") (Some [1; 2]%Z);
        EvApplyMigrationsForInstance (mkEntity Example.MailTypeRef None None (VString "m2"))]).
Proof. vm_compute. reflexivity. Qed.

(** ** Decoding a batch *)

(** A map whose mapper always fulfils is fulfilled, with one result per
    element. *)
Lemma promiseMap_fulfils {S X Y} (f : X -> Prog S Y) :
  (forall x s, exists y, fst (f x s) = inr y) ->
  forall l s, exists ys, fst (promiseMap l f s) = inr ys /\ length ys = length l.
Proof.
  intros Hf. induction l as [| x rest IH]; intros s.
  - exists []. split; reflexivity.
  - simpl. unfold bind at 1. destruct (Hf x s) as [y Hy].
    destruct (f x s) as [r s1]. simpl in Hy. subst r.
    unfold bind at 1. destruct (IH s1) as (ys & Hys & Hlen).
    destruct (promiseMap rest f s1) as [r s2]. simpl in Hys. subst r.
    exists (y :: ys). split; [reflexivity | simpl; now rewrite Hlen].
Qed.

Section Tolerance.
Context {W : Type}.
Variable imports : Imports W.
Variable this : EntityRestClient W.

Lemma resolveSessionKey_or_null_fulfils model instance (s : State W) :
  key_or_not_found (_crypto this) ->
  exists sk, fst (resolveSessionKey_or_null this model instance s) = inr sk.
Proof.
  intros Hkey. unfold resolveSessionKey_or_null, catch_ofClass, try_catch.
  rewrite perform_eq. specialize (Hkey model instance (world s)).
  destruct (resolveSessionKey (_crypto this) model instance (world s)) as [[e | k] w'];
    cbn [fst snd] in *.
  - rewrite Hkey. unfold console_log, bind. rewrite perform_eq. simpl. eauto.
  - eauto.
Qed.

Lemma decode_instance_fulfils model instance (s : State W) :
  key_or_not_found (_crypto this) ->
  decoding_returns this ->
  exists entity, fst (decode_instance this model instance s) = inr entity.
Proof.
  intros Hkey (Hdec & Hpost & _). unfold decode_instance.
  destruct (resolveSessionKey_or_null_fulfils model (Literal instance) s Hkey) as [sk Hsk].
  unfold bind at 1.
  destruct (resolveSessionKey_or_null this model (Literal instance) s) as [r s1].
  simpl in Hsk. subst r.
  unfold bind at 1. rewrite perform_eq.
  destruct (Hdec model instance sk (world s1)) as [d Hd].
  destruct (decryptAndMapToInstance (_instanceMapper this) model instance sk (world s1))
    as [r w2]. simpl in Hd. subst r. cbn [fst snd].
  rewrite perform_eq. cbn [fst snd world].
  destruct (Hpost d w2) as [res Hres]. eauto.
Qed.

End Tolerance.

(** X9.  A missing session key never aborts the decoding of a batch: when
    key resolution fails only with [SessionKeyNotFoundError], and decryption
    and the migrations return, [_handleLoadMultipleResult] on a resolvable
    type returns one entity per loaded instance. *)
Theorem batch_tolerates_missing_keys {W} (imports : Imports W) (this : EntityRestClient W)
    (typeRef : TypeRef) (loadedEntities : list Value) (s : State W) (model : TypeModel) :
  key_or_not_found (_crypto this) ->
  decoding_returns this ->
  fst (resolveTypeReference imports typeRef (world s)) = inr model ->
  exists entities,
    fst (_handleLoadMultipleResult imports this typeRef (VArray loadedEntities) s)
    = inr entities /\
    length entities = length loadedEntities.
Proof.
  intros Hkey Hret Hres. unfold _handleLoadMultipleResult, promiseMap_parsed.
  unfold bind at 1. rewrite perform_eq.
  destruct (resolveTypeReference imports typeRef (world s)) as [r w1]. simpl in Hres. subst r.
  cbn [fst snd]. unfold bind at 1.
  match goal with
  | |- context [match ?x with _ => _ end] =>
      assert (Hmig : exists u, fst x = inr u)
  end.
  { destruct (isSameTypeRef typeRef PushIdentifierTypeRef); [| simpl; eauto].
    unfold bind.
    match goal with
    | |- context [promiseMap ?xs ?g ?st] =>
        assert (Hall : exists ys, fst (promiseMap xs g st) = inr ys /\ length ys = length xs);
        [| destruct Hall as (ys & Hys & _); destruct (promiseMap xs g st) as [r st'];
           simpl in Hys; subst r; simpl; eauto]
    end.
    apply promiseMap_fulfils. intros x st. rewrite perform_eq. cbn [fst].
    destruct Hret as (_ & _ & Hraw). apply Hraw. }
  destruct Hmig as [u Hu].
  match goal with
  | |- context [match ?x with _ => _ end] => destruct x as [r s2]
  end.
  simpl in Hu. subst r.
  apply promiseMap_fulfils. intros x st. now apply decode_instance_fulfils.
Qed.

Lemma batch_tolerates_missing_keys_witness :
  exists entities,
    fst (_handleLoadMultipleResult Example.example_imports Example.loggedIn Example.MailTypeRef
           (VArray [VString "m1"; VString "locked"; VString "m2"]) (Example.start []))
    = inr entities /\
    length entities = 3.
Proof.
  apply (@batch_tolerates_missing_keys _ Example.example_imports Example.loggedIn
           Example.MailTypeRef [VString "m1"; VString "locked"; VString "m2"]
           (Example.start []) Example.MailModel).
  - intros tm i w. simpl.
    destruct (Example.is_locked match i with Literal v => v | Instance e => content e end);
      reflexivity.
  - repeat split; intros; eexists; reflexivity.
  - reflexivity.
Defined.

(** The locked instance of the batch comes back degraded, the others
    intact. *)
Example batch_with_one_missing_key :
  fst (_handleLoadMultipleResult Example.example_imports Example.loggedIn Example.MailTypeRef
         (VArray [VString "m1"; VString "locked"; VString "m2"]) (Example.start []))
  = inr [mkEntity Example.MailTypeRef None None (VString "m1");
         mkEntity Example.MailTypeRef None
           (Some (VObject [("_sessionKey", VString "missing")])) (VString "locked");
         mkEntity Example.MailTypeRef None None (VString "m2")].
Proof. vm_compute. reflexivity. Qed.

(** X10.  Bulk decoding migrates raw instances for one type only: for a type
    reference other than [PushIdentifier], [_handleLoadMultipleResult], and
    with it [loadRange] and [loadMultiple], never calls [applyMigrations]. *)
Theorem bulk_decoding_skips_raw_migrations {W} (imports : Imports W) (this : EntityRestClient W)
    (typeRef : TypeRef) :
  isSameTypeRef typeRef PushIdentifierTypeRef = false ->
  let no_raw_migration (ev : Event) := forall t raw, ev <> EvApplyMigrations t raw in
  (forall loadedEntities,
     emits_on (@trace W) no_raw_migration
       (_handleLoadMultipleResult imports this typeRef loadedEntities)) /\
  (forall listId start count reverse,
     emits_on (@trace W) no_raw_migration
       (loadRange imports this typeRef listId start count reverse)) /\
  (forall listId ids,
     emits_on (@trace W) no_raw_migration (loadMultiple imports this typeRef listId ids)).
Proof.
  intros Hne no_raw_migration.
  assert (Hh : forall loadedEntities,
             emits_on (@trace W) no_raw_migration
               (_handleLoadMultipleResult imports this typeRef loadedEntities)).
  { intros loadedEntities. unfold _handleLoadMultipleResult. rewrite Hne.
    apply emits_bind; [apply emits_perform; intros t raw; discriminate |]. intros model.
    apply emits_bind; [apply emits_ret |]. intros _.
    apply emits_promiseMap_parsed. intros x. unfold decode_instance.
    apply emits_bind.
    { unfold resolveSessionKey_or_null, console_log.
      apply emits_catch_ofClass; [apply emits_perform; intros t raw; discriminate |].
      intros e. apply emits_bind; [apply emits_perform; intros t raw; discriminate |].
      intros _. apply emits_ret. }
    intros sk. apply emits_bind; [apply emits_perform; intros t raw; discriminate |].
    intros d. apply emits_perform; intros t raw; discriminate. }
  split; [exact Hh |]. split.
  - intros listId start count reverse. unfold loadRange.
    apply emits_bind; [apply prepare_emits; intros; intros t' raw; discriminate |]. intros p.
    destruct (negb _); [apply emits_throw |].
    apply emits_bind; [apply emits_perform; intros t raw; discriminate |]. intros json.
    apply emits_bind; [apply emits_of_result |]. intros parsed.
    apply Hh.
  - intros listId ids. unfold loadMultiple.
    apply emits_bind; [apply prepare_emits; intros; intros t' raw; discriminate |]. intros p.
    apply emits_bind; [| intros; apply emits_ret].
    apply emits_promiseMap. intros idChunk.
    apply emits_bind; [apply emits_perform; intros t raw; discriminate |]. intros json.
    apply emits_bind; [apply emits_of_result |]. intros parsed.
    apply Hh.
Qed.

Lemma bulk_decoding_skips_raw_migrations_witness :
  emits_on (@trace Example.World) (fun ev => forall t raw, ev <> EvApplyMigrations t raw)
    (loadRange Example.example_imports Example.loggedIn Example.MailTypeRef "inbox" "m0" 2 true).
Proof.
  exact (proj1 (proj2
    (@bulk_decoding_skips_raw_migrations _ Example.example_imports Example.loggedIn
       Example.MailTypeRef eq_refl)) "inbox" "m0" 2%Z true).
Defined.

(** ** Successful runs *)

Section Runs.
Context {W : Type}.
Variable imports : Imports W.
Variable this : EntityRestClient W.

(** What a successful preparation leaves: the prepared request and the two
    calls in the trace. *)
Lemma prepare_run typeRef listId elementId queryParameters extraHeaders (s : State W) p s' :
  _validateAndPrepareRestRequest imports this typeRef listId elementId queryParameters extraHeaders s
    = (inr p, s') ->
  prepared_path p = spec_path typeRef listId elementId /\
  prepared_queryParams p = default ∅ queryParameters /\
  trace s' = trace s ++ [EvResolveTypeReference typeRef; EvAuthHeaders].
Proof.
  intros E.
  destruct (prepare_inv _ _ _ _ _ _ _ _ E) as (tm & w1 & auth & w2 & _ & _ & _ & _ & -> & ->).
  repeat split.
Qed.

Lemma check_listId_inv typeModel listId (s : State W) u s' :
  check_listId typeModel listId s = (inr u, s') -> paired typeModel listId /\ s' = s.
Proof.
  rewrite check_listId_eq.
  destruct (TypeKind_eqb (typeModel_type typeModel) ListElement) eqn:Hk;
    destruct (truthy listId) eqn:Hl; intros H; inversion H; subst; split; try reflexivity.
  - left. split; [now apply TypeKind_eqb_eq | assumption].
  - right. split; [now apply TypeKind_eqb_neq | assumption].
Qed.

End Runs.

(** X11.  A [setup] call that succeeds was made with the right pairing of
    shape and list id.  In the world the preparation left, the crypto facade
    minted an owner key for the instance; the instance mapper then encrypted
    the instance with that key; the transport then answered the one request of
    the call, a POST without query parameters on the path of the type (and of
    the list, for a list element) whose body is that encrypted literal as
    JSON; and the id returned is the property [generatedId] of that answer,
    parsed, [undefined] included.  The call made these calls and no other,
    and leaves the world as the transport left it. *)
Theorem setup_result {W} (imports : Imports W) (this : EntityRestClient W)
    (listId : option Id) (instance : Entity) (extraHeaders : option Params)
    (s s' : State W) (id : Value) :
  setup imports this listId instance extraHeaders s = (inr id, s') ->
  exists p s1 sk w2 encryptedEntity w3 json w4 parsed,
    let post := mkRequest (spec_path (_type instance) listId None) POST ∅
                  (prepared_headers p)
                  (Some (JSON_stringify imports encryptedEntity)) (Some Json) in
    _validateAndPrepareRestRequest imports this (_type instance) listId None None
      extraHeaders s = (inr p, s1) /\
    paired (prepared_typeModel p) listId /\
    setNewOwnerEncSessionKey (_crypto this) (prepared_typeModel p) instance (world s1)
    = (inr sk, w2) /\
    encryptAndMapToLiteral (_instanceMapper this) (prepared_typeModel p) instance sk w2
    = (inr encryptedEntity, w3) /\
    request (_restClient this) post w3 = (inr json, w4) /\
    JSON_parse imports json = inr parsed /\
    getProp "generatedId" parsed = inr id /\
    s' = mkState w4
           (trace s
            ++ [EvResolveTypeReference (_type instance);
                EvAuthHeaders;
                EvSetNewOwnerEncSessionKey (prepared_typeModel p) instance;
                EvEncryptAndMapToLiteral (prepared_typeModel p) instance sk;
                EvRequest post]).
Proof.
  intros H. unfold setup in H.
  apply bind_inv in H. destruct H as (p & s1 & Hprep & H).
  apply bind_inv in H. destruct H as (u & s2 & Hcheck & H).
  apply check_listId_inv in Hcheck. destruct Hcheck as [Hpair ->].
  apply bind_inv in H. destruct H as (encryptedEntity & s3 & Henc & H).
  unfold encrypt_new in Henc.
  apply bind_inv in Henc. destruct Henc as (sk & s4 & Hsk & Henc).
  apply perform_inv in Hsk. destruct Hsk as (w2 & Hsk & ->).
  apply perform_inv in Henc. destruct Henc as (w3 & Henc & ->).
  apply bind_inv in H. destruct H as (json & s5 & Hreq & H).
  apply perform_inv in Hreq. destruct Hreq as (w4 & Hreq & ->).
  apply bind_inv in H. destruct H as (parsed & s6 & Hparse & H).
  apply of_result_inv in Hparse. destruct Hparse as [Hparse ->].
  apply of_result_inv in H. destruct H as [Hid ->].
  pose proof Hprep as Hrun. apply prepare_run in Hrun. destruct Hrun as (Hpath & Hqp & Htr).
  cbn [world trace] in *. rewrite Hpath, Hqp in *. cbn [default] in *.
  exists p, s1, sk, w2, encryptedEntity, w3, json, w4, parsed. cbv zeta.
  repeat match goal with |- _ /\ _ => split end; try assumption.
  rewrite Htr. now rewrite <- !app_assoc.
Qed.

Lemma setup_result_witness :
  exists p s1 sk w2 encryptedEntity w3 json w4 parsed,
    let post := mkRequest (spec_path (_type (Example.mail "m1" "hello")) (Some "inbox") None)
                  POST ∅ (prepared_headers p)
                  (Some (JSON_stringify Example.example_imports encryptedEntity))
                  (Some Json) in
    _validateAndPrepareRestRequest Example.example_imports Example.loggedIn
      (_type (Example.mail "m1" "hello")) (Some "inbox") None None None
      (Example.start [inr "{generatedId:a}"]) = (inr p, s1) /\
    paired (prepared_typeModel p) (Some "inbox") /\
    setNewOwnerEncSessionKey (_crypto Example.loggedIn) (prepared_typeModel p)
      (Example.mail "m1" "hello") (world s1) = (inr sk, w2) /\
    encryptAndMapToLiteral (_instanceMapper Example.loggedIn) (prepared_typeModel p)
      (Example.mail "m1" "hello") sk w2 = (inr encryptedEntity, w3) /\
    request (_restClient Example.loggedIn) post w3 = (inr json, w4) /\
    JSON_parse Example.example_imports json = inr parsed /\
    getProp "generatedId" parsed = inr (VString "a") /\
    snd (setup Example.example_imports Example.loggedIn (Some "inbox")
           (Example.mail "m1" "hello") None (Example.start [inr "{generatedId:a}"]))
    = mkState w4
        (trace (Example.start [inr "{generatedId:a}"])
         ++ [EvResolveTypeReference (_type (Example.mail "m1" "hello"));
             EvAuthHeaders;
             EvSetNewOwnerEncSessionKey (prepared_typeModel p) (Example.mail "m1" "hello");
             EvEncryptAndMapToLiteral (prepared_typeModel p) (Example.mail "m1" "hello") sk;
             EvRequest post]).
Proof.
  apply (@setup_result _ Example.example_imports Example.loggedIn (Some "inbox")
           (Example.mail "m1" "hello") None (Example.start [inr "{generatedId:a}"])).
  vm_compute. reflexivity.
Defined.

(** The run of the example, in full: the key, the literal and the id are the
    collaborators' answers. *)
Example setup_result_run :
  setup Example.example_imports Example.loggedIn (Some "inbox")
    (Example.mail "m1" "hello") None (Example.start [inr "{generatedId:a}"; inr "{}"])
  = (inr (VString "a"),
     mkState [inr "{}"]
       [EvResolveTypeReference Example.MailTypeRef;
        EvAuthHeaders;
        EvSetNewOwnerEncSessionKey Example.MailModel (Example.mail "m1" "hello");
        EvEncryptAndMapToLiteral Example.MailModel (Example.mail "m1" "hello") (Some [3; 4]%Z);
        EvRequest (mkRequest "/rest/tutanota/mail/inbox" POST ∅
                     {[ "v" := "46"; "accessToken" := "t0ken" ]}
                     (Some "hello") (Some Json))]).
Proof. vm_compute. reflexivity. Qed.

(** X12.  A [load] call that succeeds has made exactly these calls, each in
    the world the one before left, and each on what the one before returned:
    type resolution and authentication headers (the preparation); one GET on
    the path of the id with the caller's query parameters (none by default);
    the migration of the answer of the transport, parsed; the resolution of
    the session key of the migrated entity, which either returns the key, or
    raises [SessionKeyNotFoundError], in which case the error is logged and
    the key is null; the decryption of the migrated entity with that key; and
    the migration of the decrypted instance, whose result is returned.  A log
    entry is made exactly when the key was not found. *)
Theorem load_success_trace {W} (imports : Imports W) (this : EntityRestClient W)
    (typeRef : TypeRef) (id : IdValue) (queryParameters extraHeaders : option Params)
    (s s' : State W) (result : Entity) :
  load imports this typeRef id queryParameters extraHeaders s = (inr result, s') ->
  exists listId elementId p s1 json w2 entity migratedEntity w3 sk w4 decrypted w5 w6 log,
    let get := mkRequest (spec_path typeRef listId (Some elementId)) GET
                 (default ∅ queryParameters) (prepared_headers p) None (Some Json) in
    expandId (Some id) = inr (listId, elementId) /\
    _validateAndPrepareRestRequest imports this typeRef listId (Some elementId)
      queryParameters extraHeaders s = (inr p, s1) /\
    request (_restClient this) get (world s1) = (inr json, w2) /\
    JSON_parse imports json = inr entity /\
    applyMigrations (_crypto this) typeRef entity w2 = (inr migratedEntity, w3) /\
    ((resolveSessionKey (_crypto this) (prepared_typeModel p) (Literal migratedEntity) w3
      = (inr sk, w4) /\ log = []) \/
     (exists e,
        resolveSessionKey (_crypto this) (prepared_typeModel p) (Literal migratedEntity) w3
        = (inl e, w4) /\
        instanceof_SessionKeyNotFoundError e = true /\ sk = None /\
        log = [EvConsoleLog "could not resolve session key" e])) /\
    decryptAndMapToInstance (_instanceMapper this) (prepared_typeModel p) migratedEntity sk w4
    = (inr decrypted, w5) /\
    applyMigrationsForInstance (_crypto this) decrypted w5 = (inr result, w6) /\
    s' = mkState w6
           (trace s
            ++ [EvResolveTypeReference typeRef;
                EvAuthHeaders;
                EvRequest get;
                EvApplyMigrations typeRef entity;
                EvResolveSessionKey (prepared_typeModel p) (Literal migratedEntity)]
            ++ log
            ++ [EvDecryptAndMapToInstance (prepared_typeModel p) migratedEntity sk;
                EvApplyMigrationsForInstance decrypted]).
Proof.
  intros H. unfold load in H.
  apply bind_inv in H. destruct H as ([listId elementId] & s0 & Hex & H).
  apply of_result_inv in Hex. destruct Hex as [Hex ->].
  apply bind_inv in H. destruct H as (p & s1 & Hprep & H).
  apply bind_inv in H. destruct H as (json & s2 & Hreq & H).
  apply perform_inv in Hreq. destruct Hreq as (w2 & Hreq & ->).
  apply bind_inv in H. destruct H as (entity & s3 & Hparse & H).
  apply of_result_inv in Hparse. destruct Hparse as [Hparse ->].
  apply bind_inv in H. destruct H as (migratedEntity & s4 & Hmig & H).
  apply perform_inv in Hmig. destruct Hmig as (w3 & Hmig & ->).
  apply bind_inv in H. destruct H as (sk & s5 & Hsk & H).
  apply bind_inv in H. destruct H as (decrypted & s6 & Hdec & H).
  apply perform_inv in Hdec. destruct Hdec as (w5 & Hdec & ->).
  apply perform_inv in H. destruct H as (w6 & Hpost & ->).
  pose proof Hprep as Hrun. apply prepare_run in Hrun. destruct Hrun as (Hpath & Hqp & Htr).
  apply resolveSessionKey_or_null_inv in Hsk. cbn [trace world] in *.
  rewrite Hpath, Hqp in *.
  destruct Hsk as [(w4 & Hsk & ->) | (e & w4 & Hsk & Hc & -> & ->)]; cbn [trace world] in *.
  - exists listId, elementId, p, s1, json, w2, entity, migratedEntity, w3, sk, w4,
      decrypted, w5, w6, []. cbv zeta.
    repeat match goal with |- _ /\ _ => split end; try assumption.
    + left. split; [assumption | reflexivity].
    + rewrite Htr. simpl. now rewrite <- !app_assoc.
  - exists listId, elementId, p, s1, json, w2, entity, migratedEntity, w3, None, w4,
      decrypted, w5, w6, [EvConsoleLog "could not resolve session key" e]. cbv zeta.
    repeat match goal with |- _ /\ _ => split end; try assumption.
    + right. exists e. repeat split; assumption.
    + rewrite Htr. simpl. now rewrite <- !app_assoc.
Qed.

Lemma load_success_trace_witness :
  exists listId elementId p s1 json w2 entity migratedEntity w3 sk w4 decrypted w5 w6 log,
    let get := mkRequest (spec_path Example.MailTypeRef listId (Some elementId)) GET
                 (default ∅ None) (prepared_headers p) None (Some Json) in
    expandId (Some (IdTuple "inbox" "locked")) = inr (listId, elementId) /\
    _validateAndPrepareRestRequest Example.example_imports Example.loggedIn
      Example.MailTypeRef listId (Some elementId) None None (Example.start [inr "locked"])
    = (inr p, s1) /\
    request (_restClient Example.loggedIn) get (world s1) = (inr json, w2) /\
    JSON_parse Example.example_imports json = inr entity /\
    applyMigrations (_crypto Example.loggedIn) Example.MailTypeRef entity w2
    = (inr migratedEntity, w3) /\
    ((resolveSessionKey (_crypto Example.loggedIn) (prepared_typeModel p)
        (Literal migratedEntity) w3 = (inr sk, w4) /\ log = []) \/
     (exists e,
        resolveSessionKey (_crypto Example.loggedIn) (prepared_typeModel p)
          (Literal migratedEntity) w3 = (inl e, w4) /\
        instanceof_SessionKeyNotFoundError e = true /\ sk = None /\
        log = [EvConsoleLog "could not resolve session key" e])) /\
    decryptAndMapToInstance (_instanceMapper Example.loggedIn) (prepared_typeModel p)
      migratedEntity sk w4 = (inr decrypted, w5) /\
    applyMigrationsForInstance (_crypto Example.loggedIn) decrypted w5
    = (inr (mkEntity Example.MailTypeRef None
              (Some (VObject [("_sessionKey", VString "missing")])) (VString "locked")), w6) /\
    snd (load Example.example_imports Example.loggedIn Example.MailTypeRef
           (IdTuple "inbox" "locked") None None (Example.start [inr "locked"]))
    = mkState w6
        (trace (Example.start [inr "locked"])
         ++ [EvResolveTypeReference Example.MailTypeRef;
             EvAuthHeaders;
             EvRequest get;
             EvApplyMigrations Example.MailTypeRef entity;
             EvResolveSessionKey (prepared_typeModel p) (Literal migratedEntity)]
         ++ log
         ++ [EvDecryptAndMapToInstance (prepared_typeModel p) migratedEntity sk;
             EvApplyMigrationsForInstance decrypted]).
Proof.
  apply (@load_success_trace _ Example.example_imports Example.loggedIn Example.MailTypeRef
           (IdTuple "inbox" "locked") None None (Example.start [inr "locked"])).
  vm_compute. reflexivity.
Defined.

(** The run of the example with a key: no log entry, and the key of the
    facade goes to the mapper. *)
Example load_success_run :
  load Example.example_imports Example.loggedIn Example.MailTypeRef
    (IdTuple "inbox" "m1") None None (Example.start [inr "m1"])
  = (inr (mkEntity Example.MailTypeRef None None (VString "m1")),
     mkState []
       [EvResolveTypeReference Example.MailTypeRef;
        EvAuthHeaders;
        EvRequest (mkRequest "/rest/tutanota/mail/inbox/m1" GET ∅
                     {[ "v" := "46"; "accessToken" := "t0ken" ]} None (Some Json));
        EvApplyMigrations Example.MailTypeRef (VString "m1");
        EvResolveSessionKey Example.MailModel (Literal (VString "m1"));
        EvDecryptAndMapToInstance Example.MailModel (VString "m1") (Some [1; 2]%Z);
        EvApplyMigrationsForInstance (mkEntity Example.MailTypeRef None None (VString "m1"))]).
Proof. vm_compute. reflexivity. Qed.

(** X13.  [update] refuses an instance without an id (null or the empty
    string) with the usage error, before calling anything.  An [update] call
    that succeeds has made exactly these calls, each in the world the one
    before left: the preparation; the resolution of the session key of the
    instance, which returned a key (or none); the encryption of the instance
    with the key that the resolution returned; and one request, a PUT without
    query parameters on the path of the id whose body is the literal that the
    encryption returned, as JSON, which the transport answered. *)
Theorem update_result {W} (imports : Imports W) (this : EntityRestClient W)
    (instance : Entity) (s : State W) :
  (truthy_id (_id instance) = false ->
   update imports this instance s = (inl (Error "Id must be defined"), s)) /\
  (forall s',
     update imports this instance s = (inr tt, s') ->
     exists listId elementId p s1 sessionKey w2 encryptedEntity w3 answer w4,
       let put := mkRequest (spec_path (_type instance) listId (Some elementId)) PUT ∅
                    (prepared_headers p)
                    (Some (JSON_stringify imports encryptedEntity)) (Some Json) in
       truthy_id (_id instance) = true /\
       expandId (_id instance) = inr (listId, elementId) /\
       _validateAndPrepareRestRequest imports this (_type instance) listId
         (Some elementId) None None s = (inr p, s1) /\
       resolveSessionKey (_crypto this) (prepared_typeModel p) (Instance instance) (world s1)
       = (inr sessionKey, w2) /\
       encryptAndMapToLiteral (_instanceMapper this) (prepared_typeModel p) instance
         sessionKey w2 = (inr encryptedEntity, w3) /\
       request (_restClient this) put w3 = (inr answer, w4) /\
       s' = mkState w4
              (trace s
               ++ [EvResolveTypeReference (_type instance);
                   EvAuthHeaders;
                   EvResolveSessionKey (prepared_typeModel p) (Instance instance);
                   EvEncryptAndMapToLiteral (prepared_typeModel p) instance sessionKey;
                   EvRequest put])).
Proof.
  split.
  - intros Hid. unfold update. now rewrite Hid.
  - intros s' H. unfold update in H.
    destruct (truthy_id (_id instance)) eqn:Hid; [| discriminate H]. cbn [negb] in H.
    apply bind_inv in H. destruct H as ([listId elementId] & s0 & Hex & H).
    apply of_result_inv in Hex. destruct Hex as [Hex ->].
    apply bind_inv in H. destruct H as (p & s1 & Hprep & H).
    apply bind_inv in H. destruct H as (sessionKey & s2 & Hsk & H).
    apply perform_inv in Hsk. destruct Hsk as (w2 & Hsk & ->).
    apply bind_inv in H. destruct H as (encryptedEntity & s3 & Henc & H).
    apply perform_inv in Henc. destruct Henc as (w3 & Henc & ->).
    apply bind_inv in H. destruct H as (answer & s4 & Hreq & H).
    apply perform_inv in Hreq. destruct Hreq as (w4 & Hreq & ->).
    inversion H; subst.
    pose proof Hprep as Hrun. apply prepare_run in Hrun. destruct Hrun as (Hpath & Hqp & Htr).
    cbn [world trace] in *. rewrite Hpath, Hqp in *. cbn [default] in *.
    exists listId, elementId, p, s1, sessionKey, w2, encryptedEntity, w3, answer, w4. cbv zeta.
    repeat match goal with |- _ /\ _ => split end; try assumption; try reflexivity.
    rewrite Htr. now rewrite <- !app_assoc.
Qed.

Lemma update_result_witness :
  update Example.example_imports Example.loggedIn
    (mkEntity Example.UserTypeRef (Some (ElementId "")) None (VString "hello"))
    (Example.start [inr "{}"])
  = (inl (Error "Id must be defined"), Example.start [inr "{}"]) /\
  exists listId elementId p s1 sessionKey w2 encryptedEntity w3 answer w4,
    let put := mkRequest (spec_path (_type (Example.user "u1" "hello")) listId (Some elementId))
                 PUT ∅ (prepared_headers p)
                 (Some (JSON_stringify Example.example_imports encryptedEntity))
                 (Some Json) in
    truthy_id (_id (Example.user "u1" "hello")) = true /\
    expandId (_id (Example.user "u1" "hello")) = inr (listId, elementId) /\
    _validateAndPrepareRestRequest Example.example_imports Example.loggedIn
      (_type (Example.user "u1" "hello")) listId (Some elementId) None None
      (Example.start [inr "{}"]) = (inr p, s1) /\
    resolveSessionKey (_crypto Example.loggedIn) (prepared_typeModel p)
      (Instance (Example.user "u1" "hello")) (world s1) = (inr sessionKey, w2) /\
    encryptAndMapToLiteral (_instanceMapper Example.loggedIn) (prepared_typeModel p)
      (Example.user "u1" "hello") sessionKey w2 = (inr encryptedEntity, w3) /\
    request (_restClient Example.loggedIn) put w3 = (inr answer, w4) /\
    snd (update Example.example_imports Example.loggedIn (Example.user "u1" "hello")
           (Example.start [inr "{}"]))
    = mkState w4
        (trace (Example.start [inr "{}"])
         ++ [EvResolveTypeReference (_type (Example.user "u1" "hello"));
             EvAuthHeaders;
             EvResolveSessionKey (prepared_typeModel p) (Instance (Example.user "u1" "hello"));
             EvEncryptAndMapToLiteral (prepared_typeModel p) (Example.user "u1" "hello")
               sessionKey;
             EvRequest put]).
Proof.
  split.
  - exact (proj1 (@update_result _ Example.example_imports Example.loggedIn
                    (mkEntity Example.UserTypeRef (Some (ElementId "")) None (VString "hello"))
                    (Example.start [inr "{}"])) eq_refl).
  - apply (proj2 (@update_result _ Example.example_imports Example.loggedIn
                    (Example.user "u1" "hello") (Example.start [inr "{}"]))).
    vm_compute. reflexivity.
Defined.

(** The run of the example, in full. *)
Example update_result_run :
  update Example.example_imports Example.loggedIn (Example.user "u1" "hello")
    (Example.start [inr "{}"])
  = (inr tt,
     mkState []
       [EvResolveTypeReference Example.UserTypeRef;
        EvAuthHeaders;
        EvResolveSessionKey Example.UserModel (Instance (Example.user "u1" "hello"));
        EvEncryptAndMapToLiteral Example.UserModel (Example.user "u1" "hello") (Some [1; 2]%Z);
        EvRequest (mkRequest "/rest/sys/user/u1" PUT ∅
                     {[ "v" := "69"; "accessToken" := "t0ken" ]}
                     (Some "hello") (Some Json))]).
Proof. vm_compute. reflexivity. Qed.

(** ** Ids *)

(** X14.  [getIds] fails, with "Id must be defined", exactly when the id of
    the instance is missing or the empty string; it never fails on a shape
    that does not fit the id.  For a [ListElement] type and a pair id it
    returns the two components; for another type it returns a null list id
    and the id as it is. *)
Theorem getIds_components (instance : Entity) (typeModel : TypeModel) :
  ((exists e, getIds instance typeModel = inl e) <-> truthy_id (_id instance) = false) /\
  (forall e, getIds instance typeModel = inl e -> e = Error "Id must be defined") /\
  (forall listId elementId,
     typeModel_type typeModel = ListElement ->
     _id instance = Some (IdTuple listId elementId) ->
     getIds instance typeModel = inr (VString listId, VString elementId)) /\
  (forall id,
     typeModel_type typeModel <> ListElement ->
     _id instance = Some id ->
     truthy_id (Some id) = true ->
     getIds instance typeModel = inr (VNull, Value_of_id id)).
Proof.
  unfold getIds. split; [| split; [| split]].
  - destruct (truthy_id (_id instance)); simpl; split.
    + intros [e H]. destruct (TypeKind_eqb _ _); discriminate H.
    + discriminate.
    + reflexivity.
    + eauto.
  - intros e. destruct (truthy_id (_id instance)); simpl.
    + destruct (TypeKind_eqb _ _); discriminate.
    + intros H. now inversion H.
  - intros listId elementId Hk Hid. rewrite Hid. simpl.
    apply TypeKind_eqb_eq in Hk. now rewrite Hk.
  - intros id Hk Hid Ht. rewrite Hid, Ht. simpl.
    apply TypeKind_eqb_neq in Hk. now rewrite Hk.
Qed.

(** A bare id under a [ListElement] type is indexed like a pair: the first two
    characters come back. *)
Example getIds_string_under_list_type :
  getIds (mkEntity Example.MailTypeRef (Some (ElementId "ab")) None VNull) Example.MailModel
  = inr (VString "a", VString "b").
Proof. reflexivity. Qed.

(** ** Batch sizes *)

Lemma emits_promiseMap_Forall {S A B} (tr : S -> list Event) (Q : Event -> Prop)
    (P : A -> Prop) (l : list A) (f : A -> Prog S B) :
  Forall P l -> (forall a, P a -> emits_on tr Q (f a)) -> emits_on tr Q (promiseMap l f).
Proof.
  intros Hl Hf. induction Hl as [| x rest Hx _ IH]; simpl.
  - apply emits_ret.
  - apply emits_bind; [now apply Hf |]. intros y.
    apply emits_bind; [exact IH |]. intros ys. apply emits_ret.
Qed.

(** The members of a chunk are members of the sequence that was split. *)
Lemma splitInChunks_members {A} (k : nat) (l chunk : list A) (x : A) :
  0 < k -> chunk ∈ splitInChunks k l -> x ∈ chunk -> x ∈ l.
Proof.
  intros Hk Hc Hx. destruct (splitInChunks_spec l Hk) as (Hconcat & _ & _).
  rewrite <- Hconcat. apply list_elem_of_In, in_concat.
  exists chunk. split; now apply list_elem_of_In.
Qed.

Section Batches.
Context {W : Type}.
Variable imports : Imports W.
Variable this : EntityRestClient W.

Lemma encrypt_new_inv tm instance (s : State W) literal s' :
  encrypt_new this tm instance s = (inr literal, s') -> encrypted_as this tm instance literal.
Proof.
  intros H. unfold encrypt_new in H.
  apply bind_inv in H. destruct H as (sk & s1 & Hsk & H).
  apply perform_inv in Hsk. destruct Hsk as (w1 & Hsk & ->).
  apply perform_inv in H. destruct H as (w2 & Henc & ->).
  exists (world s), sk, w1, w2. split; assumption.
Qed.

Lemma encrypt_new_emits (Q : Event -> Prop) tm instance :
  (forall ev, is_request ev = false -> Q ev) ->
  emits_on (@trace W) Q (encrypt_new this tm instance).
Proof.
  intros HQ. unfold encrypt_new.
  apply emits_bind; [apply emits_perform; now apply HQ |].
  intros sk. apply emits_perform. now apply HQ.
Qed.

(** What a successful preparation resolved. *)
Lemma prepare_resolved typeRef listId elementId queryParameters extraHeaders (s : State W) p s' :
  _validateAndPrepareRestRequest imports this typeRef listId elementId queryParameters extraHeaders s
    = (inr p, s') ->
  exists w, fst (resolveTypeReference imports typeRef w) = inr (prepared_typeModel p).
Proof.
  intros E.
  destruct (prepare_inv _ _ _ _ _ _ _ _ E) as (tm & w1 & auth & w2 & Hres & _ & _ & _ & -> & _).
  exists (world s). now rewrite Hres.
Qed.

(** The request of a [setup] call for one of the instances is a single
    creation. *)
Lemma setup_single instances listId instance :
  instance ∈ instances ->
  emits_on (@trace W) (single_or_batch imports this instances)
    (setup imports this listId instance None).
Proof.
  intros Hin. unfold setup.
  eapply emits_bind_post
    with (P := fun p => prepared_queryParams p = ∅ /\
                        exists w, fst (resolveTypeReference imports (_type instance) w)
                                  = inr (prepared_typeModel p)).
  - apply prepare_emits; [intros t |]; exact I.
  - intros s p s' E. split.
    + apply prepare_run in E. now destruct E as (_ & -> & _).
    + eapply prepare_resolved; exact E.
  - intros p [Hqp Hres].
    apply emits_bind; [apply check_listId_emits |]. intros _.
    eapply emits_bind_post
      with (P := encrypted_as this (prepared_typeModel p) instance).
    + apply encrypt_new_emits. intros ev Hev. destruct ev; try exact I; discriminate Hev.
    + intros s literal s' E. eapply encrypt_new_inv; exact E.
    + intros literal Hlit.
      apply emits_bind.
      { apply emits_perform. left. exists instance, (prepared_typeModel p), literal.
        cbn [method queryParams body].
        repeat match goal with |- _ /\ _ => split end; auto. }
      intros answer.
      apply emits_bind; [apply emits_of_result |]. intros parsed. apply emits_of_result.
Qed.

(** The request of the batched POST of a chunk is a batch. *)
Lemma setupMultiple_post_batch instances first p instanceChunk :
  instanceChunk ∈ splitInChunks (POST_MULTIPLE_LIMIT imports) instances ->
  0 < length instanceChunk <= POST_MULTIPLE_LIMIT imports ->
  head instances = Some first ->
  (exists w, fst (resolveTypeReference imports (_type first) w) = inr (prepared_typeModel p)) ->
  emits_on (@trace W) (single_or_batch imports this instances)
    (setupMultiple_post imports this p instanceChunk).
Proof.
  intros Hin Hlen Hfirst Hres. unfold setupMultiple_post.
  eapply emits_bind_post
    with (P := Forall2 (encrypted_as this (prepared_typeModel p)) instanceChunk).
  - apply emits_promiseMap. intros x. apply encrypt_new_emits.
    intros ev Hev. destruct ev; try exact I; discriminate Hev.
  - intros s encryptedEntities s' E. apply promiseMap_inv in E.
    eapply Forall2_impl; [exact E |].
    intros x y (sa & sb & Hxy). eapply encrypt_new_inv; exact Hxy.
  - intros encryptedEntities Henc.
    apply emits_bind.
    { apply emits_perform. right.
      exists instanceChunk, first, (prepared_typeModel p), encryptedEntities.
      cbn [method queryParams body].
      repeat match goal with |- _ /\ _ => split end; auto; lia. }
    intros answer.
    apply emits_bind; [apply emits_of_result |]. intros postReturn. apply emits_of_result.
Qed.

End Batches.

(** X15.  With a multiple-create limit [K > 0], [setupMultiple] never posts
    more than [K] instances at once.  Each of its requests is a POST, and is
    either a single creation or a batch.  A single creation is for one of the
    instances: it has no query parameters, and its body is the literal that
    the instance mapper returned for that instance, as JSON.  A batch is for
    one of the chunks of [splitInChunks K instances], which holds between 1
    and [K] instances: its query parameter [count] is the size of that chunk,
    and its body is the JSON of the array that holds, in the order of the
    chunk, the literal that the instance mapper returned for each instance of
    the chunk, encrypted under the type model of the first instance. *)
Theorem setupMultiple_batch_sizes {W} (imports : Imports W) (this : EntityRestClient W)
    (listId : option Id) (instances : list Entity) :
  0 < POST_MULTIPLE_LIMIT imports ->
  emits_on (@trace W) (single_or_batch imports this instances)
    (setupMultiple imports this listId instances).
Proof.
  intros HK.
  unfold setupMultiple. destruct (Nat.ltb _ 1); [apply emits_ret |].
  destruct (head instances) as [first |] eqn:Hfirst; [| apply emits_throw].
  destruct (splitInChunks_spec instances HK) as (_ & _ & Hbounded).
  assert (Hchunks : Forall (fun c => c ∈ splitInChunks (POST_MULTIPLE_LIMIT imports) instances /\
                                     0 < length c <= POST_MULTIPLE_LIMIT imports)
                      (splitInChunks (POST_MULTIPLE_LIMIT imports) instances)).
  { apply Forall_forall. intros c Hc. split; [exact Hc |].
    rewrite Forall_forall in Hbounded. now apply Hbounded. }
  eapply emits_bind_post
    with (P := fun p => exists w, fst (resolveTypeReference imports (_type first) w)
                                  = inr (prepared_typeModel p)).
  { apply prepare_emits; [intros t |]; exact I. }
  { intros s p s' E. eapply prepare_resolved; exact E. }
  intros p Hres.
  apply emits_bind; [apply check_listId_emits |]. intros _.
  apply emits_with_locals. apply emits_bind.
  - eapply emits_promiseMap_Forall; [exact Hchunks |].
    intros instanceChunk [Hc Hlen]. unfold setupMultiple_chunk.
    apply emits_try_catch.
    + apply emits_lift. now apply setupMultiple_post_batch with (first := first).
    + intros e. destruct (instanceof_PayloadTooLargeError e).
      * unfold setupMultiple_fallback. apply emits_bind; [| intros; apply emits_ret].
        eapply emits_promiseMap_Forall with (P := fun i => i ∈ instances).
        { apply Forall_forall. intros i Hi. eapply splitInChunks_members; eauto. }
        intros instance Hi. apply emits_try_catch.
        -- apply emits_lift. now apply setup_single.
        -- intros e'. apply emits_bind; [apply emits_modify_locals |]. intros _. apply emits_ret.
      * apply emits_bind; [apply emits_modify_locals |]. intros _. apply emits_ret.
  - intros idChunks. apply emits_bind; [apply emits_get_locals |]. intros l.
    destruct (negb _); [apply emits_throw | apply emits_ret].
Qed.

Lemma setupMultiple_batch_sizes_witness :
  emits_on (@trace Example.World)
    (single_or_batch Example.example_imports Example.loggedIn
       [Example.mail "1" "x"; Example.mail "2" "y"; Example.mail "3" "z"])
    (setupMultiple Example.example_imports Example.loggedIn (Some "inbox")
       [Example.mail "1" "x"; Example.mail "2" "y"; Example.mail "3" "z"]).
Proof.
  apply (@setupMultiple_batch_sizes _ Example.example_imports Example.loggedIn (Some "inbox")
           [Example.mail "1" "x"; Example.mail "2" "y"; Example.mail "3" "z"]).
  simpl. lia.
Defined.

(** Three instances under a limit of two: a batch of two and a batch of one;
    and, when the first batch is too large, its two instances one by one. *)
Example setupMultiple_batch_requests :
  map (fun r => (queryParams r, body r)) (requests (trace (snd
    (setupMultiple Example.example_imports Example.loggedIn (Some "inbox")
       [Example.mail "1" "x"; Example.mail "2" "y"; Example.mail "3" "z"]
       (Example.start [inr "[{generatedId:a},{generatedId:b}]"; inr "[{generatedId:c}]"])))))
  = [ ({[ "count" := "2" ]},
       Some (JSON_stringify Example.example_imports (VArray [VString "x"; VString "y"])));
      ({[ "count" := "1" ]},
       Some (JSON_stringify Example.example_imports (VArray [VString "z"]))) ] /\
  map (fun r => (queryParams r, body r)) (requests (trace (snd
    (setupMultiple Example.example_imports Example.loggedIn (Some "inbox")
       [Example.mail "1" "x"; Example.mail "2" "y"; Example.mail "3" "z"]
       (Example.start [inl (PayloadTooLargeError "too large");
                       inr "{generatedId:a}"; inr "{generatedId:b}";
                       inr "[{generatedId:c}]"])))))
  = [ ({[ "count" := "2" ]},
       Some (JSON_stringify Example.example_imports (VArray [VString "x"; VString "y"])));
      (∅, Some (JSON_stringify Example.example_imports (VString "x")));
      (∅, Some (JSON_stringify Example.example_imports (VString "y")));
      ({[ "count" := "1" ]},
       Some (JSON_stringify Example.example_imports (VArray [VString "z"]))) ].
Proof. split; vm_compute; reflexivity. Qed.
